(** * AES-128 block encryption and the OFB mode built on it

    A shallow embedding of [aes128e.c] and [obf.c].  A C byte ([uint8_t]) is
    an integer of [Z] in the range [0, 256); an array is a [list Z] read and
    written by index; a [for] loop is the iteration [for_range] of its body
    over the loop variable.  Truncations that C performs on a store into a
    [uint8_t] or in [uint32_t] arithmetic are written out ([u8], [u32]).

    [OFBaes128e] is embedded twice: on four separate arrays, for what it
    computes from key, IV and plaintext, and on one memory addressed by
    pointers ([Heap.OFBaes128e]), for what it does to buffers that may
    overlap.  [Heap_OFBaes128e_refines] relates the two. *)

From Stdlib Require Import ZArith Lia List String Btauto.

From stdpp Require Import base list list_numbers.

Local Open Scope Z_scope.

(** ** Machine integers *)

(** Conversion of an [int] value to [uint8_t]. *)
Definition u8 (z : Z) : Z := Z.land z 255.

(** Arithmetic in [uint32_t]. *)
Definition u32 (z : Z) : Z := z mod 2 ^ 32.

(** The values of a [uint8_t]. *)
Definition is_byte (z : Z) : Prop := 0 <= z < 256.

(** [n] bytes. *)
Definition bytes (n : Z) (l : list Z) : Prop :=
  Z.of_nat (length l) = n /\ Forall is_byte l.

(** ** Arrays and loops *)

(** [a[i]]; reading outside of the array is undefined in C, it gives 0
    here. *)
Definition rd (a : list Z) (i : Z) : Z := default 0 (a !! Z.to_nat i).

(** [a[i] = v]; writing outside of the array is undefined in C, it does
    nothing here. *)
Definition wr (a : list Z) (i : Z) (v : Z) : list Z := <[Z.to_nat i := v]> a.

(** [n] iterations of [body] on [i], [i+1], ... *)
Fixpoint iter_from {S : Type} (n : nat) (i : Z) (body : Z -> S -> S) (s : S) : S :=
  match n with
  | O => s
  | Datatypes.S n' => iter_from n' (i + 1) body (body i s)
  end.

(** [for (i = lo; i < hi; ++i) body]. *)
Definition for_range {S : Type} (lo hi : Z) (body : Z -> S -> S) (s : S) : S :=
  iter_from (Z.to_nat (hi - lo)) lo body s.

(** [memcpy(dst, src, n)] on two arrays that do not overlap. *)
Definition memcpy (dst src : list Z) (n : Z) : list Z :=
  for_range 0 n (fun i dst => wr dst i (rd src i)) dst.

(** Byte-wise XOR of two sequences, up to the shorter one. *)
Definition xor_bytes (a b : list Z) : list Z := zip_with Z.lxor a b.

(** ** aes128e.c *)

Definition Nb : Z := 4.

Definition Nk : Z := 4.

Definition Nr : Z := 10.

Definition sbox : list Z :=
  [ 0x63; 0x7C; 0x77; 0x7B; 0xF2; 0x6B; 0x6F; 0xC5;
    0x30; 0x01; 0x67; 0x2B; 0xFE; 0xD7; 0xAB; 0x76;
    0xCA; 0x82; 0xC9; 0x7D; 0xFA; 0x59; 0x47; 0xF0;
    0xAD; 0xD4; 0xA2; 0xAF; 0x9C; 0xA4; 0x72; 0xC0;
    0xB7; 0xFD; 0x93; 0x26; 0x36; 0x3F; 0xF7; 0xCC;
    0x34; 0xA5; 0xE5; 0xF1; 0x71; 0xD8; 0x31; 0x15;
    0x04; 0xC7; 0x23; 0xC3; 0x18; 0x96; 0x05; 0x9A;
    0x07; 0x12; 0x80; 0xE2; 0xEB; 0x27; 0xB2; 0x75;
    0x09; 0x83; 0x2C; 0x1A; 0x1B; 0x6E; 0x5A; 0xA0;
    0x52; 0x3B; 0xD6; 0xB3; 0x29; 0xE3; 0x2F; 0x84;
    0x53; 0xD1; 0x00; 0xED; 0x20; 0xFC; 0xB1; 0x5B;
    0x6A; 0xCB; 0xBE; 0x39; 0x4A; 0x4C; 0x58; 0xCF;
    0xD0; 0xEF; 0xAA; 0xFB; 0x43; 0x4D; 0x33; 0x85;
    0x45; 0xF9; 0x02; 0x7F; 0x50; 0x3C; 0x9F; 0xA8;
    0x51; 0xA3; 0x40; 0x8F; 0x92; 0x9D; 0x38; 0xF5;
    0xBC; 0xB6; 0xDA; 0x21; 0x10; 0xFF; 0xF3; 0xD2;
    0xCD; 0x0C; 0x13; 0xEC; 0x5F; 0x97; 0x44; 0x17;
    0xC4; 0xA7; 0x7E; 0x3D; 0x64; 0x5D; 0x19; 0x73;
    0x60; 0x81; 0x4F; 0xDC; 0x22; 0x2A; 0x90; 0x88;
    0x46; 0xEE; 0xB8; 0x14; 0xDE; 0x5E; 0x0B; 0xDB;
    0xE0; 0x32; 0x3A; 0x0A; 0x49; 0x06; 0x24; 0x5C;
    0xC2; 0xD3; 0xAC; 0x62; 0x91; 0x95; 0xE4; 0x79;
    0xE7; 0xC8; 0x37; 0x6D; 0x8D; 0xD5; 0x4E; 0xA9;
    0x6C; 0x56; 0xF4; 0xEA; 0x65; 0x7A; 0xAE; 0x08;
    0xBA; 0x78; 0x25; 0x2E; 0x1C; 0xA6; 0xB4; 0xC6;
    0xE8; 0xDD; 0x74; 0x1F; 0x4B; 0xBD; 0x8B; 0x8A;
    0x70; 0x3E; 0xB5; 0x66; 0x48; 0x03; 0xF6; 0x0E;
    0x61; 0x35; 0x57; 0xB9; 0x86; 0xC1; 0x1D; 0x9E;
    0xE1; 0xF8; 0x98; 0x11; 0x69; 0xD9; 0x8E; 0x94;
    0x9B; 0x1E; 0x87; 0xE9; 0xCE; 0x55; 0x28; 0xDF;
    0x8C; 0xA1; 0x89; 0x0D; 0xBF; 0xE6; 0x42; 0x68;
    0x41; 0x99; 0x2D; 0x0F; 0xB0; 0x54; 0xBB; 0x16 ].

Definition Rcon : list Z :=
  [ 0x00; 0x01; 0x02; 0x04;
    0x08; 0x10; 0x20; 0x40;
    0x80; 0x1B; 0x36 ].

(** [KeyExpansion(RoundKey, Key)]: the contents of [RoundKey] on return. *)
Definition KeyExpansion (RoundKey Key : list Z) : list Z :=
  let RoundKey :=
    for_range 0 Nk (fun i RoundKey =>
      let RoundKey := wr RoundKey (i * 4 + 0) (rd Key (i * 4 + 0)) in
      let RoundKey := wr RoundKey (i * 4 + 1) (rd Key (i * 4 + 1)) in
      let RoundKey := wr RoundKey (i * 4 + 2) (rd Key (i * 4 + 2)) in
      let RoundKey := wr RoundKey (i * 4 + 3) (rd Key (i * 4 + 3)) in
      RoundKey) RoundKey in
  for_range Nk (Nb * (Nr + 1)) (fun i RoundKey =>
    let k := (i - 1) * 4 in
    let tempa := [ rd RoundKey (k + 0); rd RoundKey (k + 1);
                   rd RoundKey (k + 2); rd RoundKey (k + 3) ] in
    let tempa :=
      if i mod Nk =? 0 then
        let u8tmp := rd tempa 0 in
        let tempa := wr tempa 0 (u8 (Z.lxor (rd sbox (rd tempa 1)) (rd Rcon (i / Nk)))) in
        let tempa := wr tempa 1 (rd sbox (rd tempa 2)) in
        let tempa := wr tempa 2 (rd sbox (rd tempa 3)) in
        let tempa := wr tempa 3 (rd sbox u8tmp) in
        tempa
      else tempa in
    let j := i * 4 in
    let k := (i - Nk) * 4 in
    let RoundKey := wr RoundKey (j + 0) (u8 (Z.lxor (rd RoundKey (k + 0)) (rd tempa 0))) in
    let RoundKey := wr RoundKey (j + 1) (u8 (Z.lxor (rd RoundKey (k + 1)) (rd tempa 1))) in
    let RoundKey := wr RoundKey (j + 2) (u8 (Z.lxor (rd RoundKey (k + 2)) (rd tempa 2))) in
    let RoundKey := wr RoundKey (j + 3) (u8 (Z.lxor (rd RoundKey (k + 3)) (rd tempa 3))) in
    RoundKey) RoundKey.

Definition AddRoundKey (round : Z) (state RoundKey : list Z) : list Z :=
  for_range 0 16 (fun i state =>
    wr state i (u8 (Z.lxor (rd state i) (rd RoundKey (round * Nb * 4 + i))))) state.

Definition SubBytes (state : list Z) : list Z :=
  for_range 0 16 (fun i state => wr state i (rd sbox (rd state i))) state.

Definition ShiftRows (state : list Z) : list Z :=
  (* row 1 *)
  let temp := rd state 1 in
  let state := wr state 1 (rd state 5) in
  let state := wr state 5 (rd state 9) in
  let state := wr state 9 (rd state 13) in
  let state := wr state 13 temp in
  (* row 2 *)
  let temp := rd state 2 in
  let state := wr state 2 (rd state 10) in
  let state := wr state 10 temp in
  let temp := rd state 6 in
  let state := wr state 6 (rd state 14) in
  let state := wr state 14 temp in
  (* row 3 *)
  let temp := rd state 3 in
  let state := wr state 3 (rd state 15) in
  let state := wr state 15 (rd state 11) in
  let state := wr state 11 (rd state 7) in
  let state := wr state 7 temp in
  state.

(** [xtime(&x)]: the value left in [x]. *)
Definition xtime (x : Z) : Z :=
  u8 (Z.lxor (Z.shiftl x 1) (if Z.land x 0x80 =? 0 then 0x00 else 0x1b)).

Definition MixColumns (state : list Z) : list Z :=
  for_range 0 4 (fun i state =>
    let t := rd state (i * 4 + 0) in
    let Tmp := u8 (Z.lxor (Z.lxor (Z.lxor (rd state (i * 4 + 0)) (rd state (i * 4 + 1)))
                                  (rd state (i * 4 + 2))) (rd state (i * 4 + 3))) in
    let Tm := u8 (Z.lxor (rd state (i * 4 + 0)) (rd state (i * 4 + 1))) in
    let Tm := xtime Tm in
    let state := wr state (i * 4 + 0) (u8 (Z.lxor (rd state (i * 4 + 0)) (Z.lxor Tm Tmp))) in
    let Tm := u8 (Z.lxor (rd state (i * 4 + 1)) (rd state (i * 4 + 2))) in
    let Tm := xtime Tm in
    let state := wr state (i * 4 + 1) (u8 (Z.lxor (rd state (i * 4 + 1)) (Z.lxor Tm Tmp))) in
    let Tm := u8 (Z.lxor (rd state (i * 4 + 2)) (rd state (i * 4 + 3))) in
    let Tm := xtime Tm in
    let state := wr state (i * 4 + 2) (u8 (Z.lxor (rd state (i * 4 + 2)) (Z.lxor Tm Tmp))) in
    let Tm := u8 (Z.lxor (rd state (i * 4 + 3)) t) in
    let Tm := xtime Tm in
    let state := wr state (i * 4 + 3) (u8 (Z.lxor (rd state (i * 4 + 3)) (Z.lxor Tm Tmp))) in
    state) state.

(** [aes128e(output, input, key)]: the contents of [output] on return.  The
    local arrays [RoundKey] and [state] are not initialised in C; they start
    from zeros here and are overwritten before they are read. *)
Definition aes128e (output input key : list Z) : list Z :=
  let RoundKey := replicate 176 0 in
  let state := replicate 16 0 in
  let state := memcpy state input 16 in
  let RoundKey := KeyExpansion RoundKey key in
  let state := AddRoundKey 0 state RoundKey in
  let state :=
    for_range 1 Nr (fun round state =>
      let state := SubBytes state in
      let state := ShiftRows state in
      let state := MixColumns state in
      let state := AddRoundKey round state RoundKey in
      state) state in
  let state := SubBytes state in
  let state := ShiftRows state in
  let state := AddRoundKey Nr state RoundKey in
  memcpy output state 16.

(** ** obf.c *)

(** The variables of [OFBaes128e] that change during the call: the
    ciphertext buffer, the local arrays [block_out] and [feedback], and (a
    ghost field) the number of calls of [aes128e] made so far. *)
Record ofb_state : Type := mk_ofb {
  ofb_ciphertext : list Z;
  ofb_block_out : list Z;
  ofb_feedback : list Z;
  ofb_calls : nat
}.

(** [OFBaes128e(ciphertext, plaintext, length, iv, key)] on buffers that do
    not overlap: the state on return.  The index [i * 16 + j] is computed in
    [uint32_t]. *)
Definition OFBaes128e (ciphertext plaintext : list Z) (length : Z)
    (iv key : list Z) : ofb_state :=
  let block_out := replicate 16 0 in
  let feedback := replicate 16 0 in
  let feedback := memcpy feedback iv 16 in
  let full_blocks := length / 16 in
  let remaining := length mod 16 in
  let s :=
    for_range 0 full_blocks (fun i s =>
      let block_out := aes128e s.(ofb_block_out) s.(ofb_feedback) key in
      let ciphertext :=
        for_range 0 16 (fun j ciphertext =>
          wr ciphertext (u32 (u32 (i * 16) + j))
             (u8 (Z.lxor (rd plaintext (u32 (u32 (i * 16) + j))) (rd block_out j))))
          s.(ofb_ciphertext) in
      let feedback := memcpy s.(ofb_feedback) block_out 16 in
      mk_ofb ciphertext block_out feedback (S s.(ofb_calls)))
      (mk_ofb ciphertext block_out feedback O) in
  if 0 <? remaining then
    let block_out := aes128e s.(ofb_block_out) s.(ofb_feedback) key in
    let ciphertext :=
      for_range 0 remaining (fun j ciphertext =>
        wr ciphertext (u32 (u32 (full_blocks * 16) + j))
           (u8 (Z.lxor (rd plaintext (u32 (u32 (full_blocks * 16) + j))) (rd block_out j))))
        s.(ofb_ciphertext) in
    mk_ofb ciphertext block_out s.(ofb_feedback) (S s.(ofb_calls))
  else s.

(** ** obf.c on the caller's memory

    The four buffers of [OFBaes128e] are pointers into one memory, and
    nothing stops a caller from passing buffers that overlap (encryption in
    place passes the same pointer as [ciphertext] and [plaintext]).  Here
    the memory is a map from addresses to bytes and the pointers are
    addresses; the local arrays stay values. *)

Module Heap.

Definition mem : Type := Z -> Z.

Definition store (m : mem) (a v : Z) : mem :=
  fun x => if x =? a then v else m x.

(** The [n] bytes at [p], [p+1], ... *)
Definition load_bytes (m : mem) (p n : Z) : list Z :=
  (fun k => m (p + k)) <$> seqZ 0 n.

Record ofb_state : Type := mk_ofb {
  ofb_memory : mem;
  ofb_block_out : list Z;
  ofb_feedback : list Z
}.

Definition OFBaes128e (m : mem) (ciphertext plaintext : Z) (length : Z)
    (iv key : Z) : mem :=
  let block_out := replicate 16 0 in
  let feedback := replicate 16 0 in
  let feedback := memcpy feedback (load_bytes m iv 16) 16 in
  let full_blocks := length / 16 in
  let remaining := length mod 16 in
  let s :=
    for_range 0 full_blocks (fun i s =>
      let block_out := aes128e s.(ofb_block_out) s.(ofb_feedback) (load_bytes s.(ofb_memory) key 16) in
      let m :=
        for_range 0 16 (fun j m =>
          store m (ciphertext + u32 (u32 (i * 16) + j))
                (u8 (Z.lxor (m (plaintext + u32 (u32 (i * 16) + j))) (rd block_out j))))
          s.(ofb_memory) in
      let feedback := memcpy s.(ofb_feedback) block_out 16 in
      mk_ofb m block_out feedback)
      (mk_ofb m block_out feedback) in
  if 0 <? remaining then
    let block_out := aes128e s.(ofb_block_out) s.(ofb_feedback) (load_bytes s.(ofb_memory) key 16) in
    for_range 0 remaining (fun j m =>
      store m (ciphertext + u32 (u32 (full_blocks * 16) + j))
            (u8 (Z.lxor (m (plaintext + u32 (u32 (full_blocks * 16) + j))) (rd block_out j))))
      s.(ofb_memory)
  else s.(ofb_memory).

End Heap.

(** ** main.c

    [main] works on files.  A file system is a map from paths to contents;
    the C library is taken at its word: [fopen(path, "rb")] succeeds when
    the file exists, [fopen(path, "wb")] creates the file or empties it at
    once (when the environment lets it), a stream reads what the file holds
    at the time of the read, and reads and writes do not fail.  What the
    program cannot control is an [environment]: whether a file can be
    created, whether [malloc] succeeds, and the bytes that a fresh block of
    memory holds. *)

(** The lines that [main] prints. *)
Inductive message : Type :=
| Usage                       (* "Usage: %s <-e|-d> <input_file> ..." *)
| InvalidMode (mode : string) (* "Invalid mode '%s'. ..." *)
| OpenError                   (* perror("Error opening files") *)
| KeySizeError (key_size : Z) (* "Key must be exactly 16 bytes (got %ld bytes)." *)
| IvSizeError (iv_size : Z)   (* "IV must be exactly 16 bytes (got %ld bytes)." *)
| KeyReadError                (* "Key file must contain exactly 16 bytes ..." *)
| IvReadError                 (* "IV file must contain exactly 16 bytes ..." *)
| AllocationError             (* "Memory allocation failed." *)
| InputReadError              (* "Failed to read input file completely." *)
| Completed (encrypt : bool). (* "Encryption completed." / "Decryption completed." *)

Definition file_system : Type := string -> option (list Z).

(** The file at [path] now holds [data]. *)
Definition write_file (fs : file_system) (path : string) (data : list Z) : file_system :=
  fun p => if String.eqb p path then Some data else fs p.

(** [fseek(f, 0, SEEK_END); ftell(f)]. *)
Definition file_size_of (fs : file_system) (path : string) : Z :=
  Z.of_nat (length (default [] (fs path))).

Record environment : Type := mk_env {
  can_create : string -> bool;  (* [fopen(path, "wb")] succeeds *)
  malloc_ok : Z -> bool;        (* [malloc(size)] does not return NULL *)
  heap_junk : Z -> Z            (* byte [k] of a block that [malloc] returns *)
}.

(** What a run of [main] leaves: the value returned, the files, and the
    lines printed. *)
Record outcome : Type := mk_outcome {
  exit_code : Z;
  files : file_system;
  messages : list message
}.

(** A stream that is not NULL. *)
Definition is_some {A : Type} (o : option A) : bool :=
  match o with
  | Some _ => true
  | None => false
  end.

(** [main(argc, argv)] with [argc] the length of [argv]. *)
Definition main (env : environment) (argv : list string) (fs : file_system) : outcome :=
  let argc := Z.of_nat (length argv) in
  let arg := fun i : nat => nth i argv EmptyString in
  if negb (argc =? 6) then mk_outcome 1 fs [Usage] else
  let encrypt := String.eqb (arg 1%nat) "-e" in
  if negb encrypt && negb (String.eqb (arg 1%nat) "-d")
  then mk_outcome 1 fs [InvalidMode (arg 1%nat)] else
  let fin := is_some (fs (arg 2%nat)) in
  let fout := can_create env (arg 3%nat) in
  let fs := if fout then write_file fs (arg 3%nat) [] else fs in
  let fkey := is_some (fs (arg 4%nat)) in
  let fiv := is_some (fs (arg 5%nat)) in
  if negb fin || negb fout || negb fkey || negb fiv then mk_outcome 1 fs [OpenError] else
  let key_size := file_size_of fs (arg 4%nat) in
  let iv_size := file_size_of fs (arg 5%nat) in
  if negb (key_size =? 16) then mk_outcome 1 fs [KeySizeError key_size] else
  if negb (iv_size =? 16) then mk_outcome 1 fs [IvSizeError iv_size] else
  let key := take 16 (default [] (fs (arg 4%nat))) in
  let bytes_read_key := Z.of_nat (length key) in
  let extra_key_byte := 16 <? key_size in
  if negb (bytes_read_key =? 16) || extra_key_byte then mk_outcome 1 fs [KeyReadError] else
  let iv := take 16 (default [] (fs (arg 5%nat))) in
  let bytes_read_iv := Z.of_nat (length iv) in
  let extra_iv_byte := 16 <? iv_size in
  if negb (bytes_read_iv =? 16) || extra_iv_byte then mk_outcome 1 fs [IvReadError] else
  let file_size := file_size_of fs (arg 2%nat) in
  if negb (malloc_ok env file_size) then mk_outcome 1 fs [AllocationError] else
  let input := default [] (fs (arg 2%nat)) in
  let output := heap_junk env <$> seqZ 0 file_size in
  if negb (Z.of_nat (length input) =? file_size) then mk_outcome 1 fs [InputReadError] else
  let iv_copy := memcpy (replicate 16 0) iv 16 in
  let output := ofb_ciphertext (OFBaes128e output input (u32 file_size) iv_copy key) in
  let fs := write_file fs (arg 3%nat) output in
  mk_outcome 0 fs [Completed encrypt].

(** * Vocabulary of the specification and of the proofs *)

(** ** Bytes and loops *)

(** A decision procedure for sequences of bytes. *)
Definition is_byteb (z : Z) : bool := (0 <=? z) && (z <? 256).

(** A loop that replaces [a[off + i]] by [g i a[off + i]] for [i] in
    [0, n). *)
Definition update_range (off n : Z) (g : Z -> Z -> Z) (a : list Z) : list Z :=
  for_range 0 n (fun i a => wr a (off + i) (g i (rd a (off + i)))) a.

(** ** The block cipher *)

(** The state of [aes128e] just before the final [memcpy]. *)
Definition final_state (input key : list Z) : list Z :=
  let RoundKey := KeyExpansion (replicate 176 0) key in
  let state := AddRoundKey 0 (memcpy (replicate 16 0) input 16) RoundKey in
  let state :=
    for_range 1 Nr (fun round state =>
      AddRoundKey round (MixColumns (ShiftRows (SubBytes state))) RoundKey) state in
  AddRoundKey Nr (ShiftRows (SubBytes state)) RoundKey.

(** The block that [aes128e] leaves in a 16-byte output buffer. *)
Definition encrypt_block (input key : list Z) : list Z :=
  aes128e (replicate 16 0) input key.

(** ** The key schedule *)

(** The body of the first loop of [KeyExpansion]. *)
Definition key_copy_step (Key : list Z) (i : Z) (RoundKey : list Z) : list Z :=
  let RoundKey := wr RoundKey (i * 4 + 0) (rd Key (i * 4 + 0)) in
  let RoundKey := wr RoundKey (i * 4 + 1) (rd Key (i * 4 + 1)) in
  let RoundKey := wr RoundKey (i * 4 + 2) (rd Key (i * 4 + 2)) in
  let RoundKey := wr RoundKey (i * 4 + 3) (rd Key (i * 4 + 3)) in
  RoundKey.

(** The body of the second loop of [KeyExpansion]. *)
Definition key_expansion_step (i : Z) (RoundKey : list Z) : list Z :=
  let k := (i - 1) * 4 in
  let tempa := [ rd RoundKey (k + 0); rd RoundKey (k + 1);
                 rd RoundKey (k + 2); rd RoundKey (k + 3) ] in
  let tempa :=
    if i mod Nk =? 0 then
      let u8tmp := rd tempa 0 in
      let tempa := wr tempa 0 (u8 (Z.lxor (rd sbox (rd tempa 1)) (rd Rcon (i / Nk)))) in
      let tempa := wr tempa 1 (rd sbox (rd tempa 2)) in
      let tempa := wr tempa 2 (rd sbox (rd tempa 3)) in
      let tempa := wr tempa 3 (rd sbox u8tmp) in
      tempa
    else tempa in
  let j := i * 4 in
  let k := (i - Nk) * 4 in
  let RoundKey := wr RoundKey (j + 0) (u8 (Z.lxor (rd RoundKey (k + 0)) (rd tempa 0))) in
  let RoundKey := wr RoundKey (j + 1) (u8 (Z.lxor (rd RoundKey (k + 1)) (rd tempa 1))) in
  let RoundKey := wr RoundKey (j + 2) (u8 (Z.lxor (rd RoundKey (k + 2)) (rd tempa 2))) in
  let RoundKey := wr RoundKey (j + 3) (u8 (Z.lxor (rd RoundKey (k + 3)) (rd tempa 3))) in
  RoundKey.

(** The array [tempa] of iteration [i], after the conditional. *)
Definition key_temp (i : Z) (RoundKey : list Z) : list Z :=
  let k := (i - 1) * 4 in
  if i mod Nk =? 0 then
    [ u8 (Z.lxor (rd sbox (rd RoundKey (k + 1))) (rd Rcon (i / Nk)));
      rd sbox (rd RoundKey (k + 2)); rd sbox (rd RoundKey (k + 3));
      rd sbox (rd RoundKey (k + 0)) ]
  else [ rd RoundKey (k + 0); rd RoundKey (k + 1); rd RoundKey (k + 2); rd RoundKey (k + 3) ].

(** Word [i] of the expanded key: its bytes [4i .. 4i+3]. *)
Definition word (RoundKey : list Z) (i : Z) : list Z :=
  [ rd RoundKey (4 * i); rd RoundKey (4 * i + 1);
    rd RoundKey (4 * i + 2); rd RoundKey (4 * i + 3) ].

(** From the specification of the key schedule: a one-byte left rotation
    of a word. *)
Definition rot_word (w : list Z) : list Z := drop 1 w ++ take 1 w.

(** Every byte of a word through the S-box. *)
Definition sub_word (w : list Z) : list Z := (fun b => rd sbox b) <$> w.

(** The transformation of word [i-1] when [i] is a multiple of 4: rotation,
    substitution, and [Rcon[i/4]] XORed into the first byte. *)
Definition schedule_core (i : Z) (w : list Z) : list Z :=
  let w := sub_word (rot_word w) in
  wr w 0 (Z.lxor (rd w 0) (rd Rcon (i / 4))).

(** Word [i] from word [i-4] ([w4]) and word [i-1] ([w1]). *)
Definition next_word (i : Z) (w4 w1 : list Z) : list Z :=
  xor_bytes w4 (if i mod 4 =? 0 then schedule_core i w1 else w1).

(** The state of the second loop of [KeyExpansion] before iteration [i]. *)
Definition key_inv (Key : list Z) (i : Z) (RK : list Z) : Prop :=
  length RK = 176%nat /\
  (forall p, 0 <= p < 16 -> rd RK p = rd Key p) /\
  (forall p, 0 <= p < 4 * i -> is_byte (rd RK p)) /\
  (forall w, 4 <= w < i -> word RK w = next_word w (word RK (w - 4)) (word RK (w - 1))).

(** Round-key block [k]: bytes [16k .. 16k+15] of the expanded key. *)
Definition round_key_block (RoundKey : list Z) (k : Z) : list Z :=
  take 16 (drop (Z.to_nat (16 * k)) RoundKey).

(** ** The rounds *)

(** From the specification: SubBytes replaces every byte by its S-box
    image. *)
Definition sub_bytes (state : list Z) : list Z := (fun b => rd sbox b) <$> state.

(** From the specification: the state is a 4x4 matrix in column-major
    order (byte index = row + 4 * column), and ShiftRows rotates row [r]
    cyclically to the left by [r] positions. *)
Definition shift_rows (state : list Z) : list Z :=
  (fun n => let r := n mod 4 in let c := n / 4 in rd state (r + 4 * ((c + r) mod 4)))
    <$> seqZ 0 16.

(** From the specification: MixColumns replaces every column by a fixed
    combination of its four bytes in GF(2^8), the product with the matrix
    of FIPS-197 whose rows are the rotations of (02 03 01 01), where 02 is
    the doubling [xtime] and 03 is 02 XOR 01. *)
Definition gf_mul2 (a : Z) : Z := xtime a.

Definition gf_mul3 (a : Z) : Z := Z.lxor (xtime a) a.

(** One column. *)
Definition mix_column (a : list Z) : list Z :=
  let a0 := rd a 0 in let a1 := rd a 1 in let a2 := rd a 2 in let a3 := rd a 3 in
  [ Z.lxor (Z.lxor (Z.lxor (gf_mul2 a0) (gf_mul3 a1)) a2) a3;
    Z.lxor (Z.lxor (Z.lxor a0 (gf_mul2 a1)) (gf_mul3 a2)) a3;
    Z.lxor (Z.lxor (Z.lxor a0 a1) (gf_mul2 a2)) (gf_mul3 a3);
    Z.lxor (Z.lxor (Z.lxor (gf_mul3 a0) a1) a2) (gf_mul2 a3) ].

(** The four columns of the state. *)
Definition mix_columns (state : list Z) : list Z :=
  mix_column (take 4 state) ++ mix_column (take 4 (drop 4 state)) ++
  mix_column (take 4 (drop 8 state)) ++ mix_column (take 4 (drop 12 state)).

(** Round-key block [round] of the key schedule of [key]. *)
Definition round_key (key : list Z) (round : Z) : list Z :=
  round_key_block (KeyExpansion (replicate 176 0) key) round.

(** From the specification of the block cipher core, one of the rounds
    1..9: SubBytes, ShiftRows, MixColumns, XOR with round-key block
    [round]. *)
Definition cipher_round (key : list Z) (state : list Z) (round : Z) : list Z :=
  let state := sub_bytes state in
  let state := shift_rows state in
  let state := mix_columns state in
  xor_bytes state (round_key key round).

(** From the specification of the block cipher core: XOR with round-key
    block 0; the rounds 1..9; a final round of SubBytes, ShiftRows and XOR
    with round-key block 10, without MixColumns; the output is the final
    state. *)
Definition cipher (input key : list Z) : list Z :=
  let state := input in
  let state := xor_bytes state (round_key key 0) in
  let state := foldl (cipher_round key) state (seqZ 1 9) in
  let state := sub_bytes state in
  let state := shift_rows state in
  xor_bytes state (round_key key 10).

(** The AES polynomial [x^8 + x^4 + x^3 + x + 1]. *)
Definition aes_polynomial : Z := 0x11B.

(** Multiplication of the polynomial [a] by [x] modulo the AES polynomial:
    shift, then subtract the modulus when a term of degree 8 appeared. *)
Definition gf_mulx (a : Z) : Z :=
  let p := Z.shiftl a 1 in
  if Z.testbit p 8 then Z.lxor p aes_polynomial else p.

(** ** The OFB keystream *)

(** Keystream block 0 is the encryption of the IV, keystream block [i+1] the
    encryption of keystream block [i]. *)
Fixpoint keystream (key iv : list Z) (i : nat) : list Z :=
  match i with
  | O => encrypt_block iv key
  | S i' => encrypt_block (keystream key iv i') key
  end.

(** The chaining register after [n] blocks: the IV, then the latest
    keystream block. *)
Definition chaining (key iv : list Z) (n : nat) : list Z :=
  match n with
  | O => iv
  | S n' => keystream key iv n'
  end.

(** Byte [k] of the keystream. *)
Definition keystream_byte (key iv : list Z) (k : Z) : Z :=
  rd (keystream key iv (Z.to_nat (k / 16))) (k mod 16).

(** The first [L] bytes of the keystream. *)
Definition keystream_prefix (key iv : list Z) (L : Z) : list Z :=
  keystream_byte key iv <$> seqZ 0 L.

Section OFB_vocabulary.

Variables (key iv plaintext ct0 : list Z).

(** Byte [k] of the ciphertext, as [OFBaes128e] stores it. *)
Definition ofb_byte (k : Z) : Z :=
  u8 (Z.lxor (rd plaintext k) (keystream_byte key iv k)).

(** The state of [OFBaes128e] after [i] full blocks. *)
Definition ofb_inv (i : Z) (s : ofb_state) : Prop :=
  ofb_feedback s = chaining key iv (Z.to_nat i) /\
  ofb_block_out s = match Z.to_nat i with
                    | O => replicate 16 0
                    | S n => keystream key iv n
                    end /\
  ofb_calls s = Z.to_nat i /\
  length (ofb_ciphertext s) = length ct0 /\
  forall k, 0 <= k ->
    rd (ofb_ciphertext s) k = if k <? i * 16 then ofb_byte k else rd ct0 k.

(** The body of the loop of [OFBaes128e] over the full blocks. *)
Definition ofb_block_step (i : Z) (s : ofb_state) : ofb_state :=
  let block_out := aes128e s.(ofb_block_out) s.(ofb_feedback) key in
  let ciphertext :=
    for_range 0 16 (fun j ciphertext =>
      wr ciphertext (u32 (u32 (i * 16) + j))
         (u8 (Z.lxor (rd plaintext (u32 (u32 (i * 16) + j))) (rd block_out j))))
      s.(ofb_ciphertext) in
  let feedback := memcpy s.(ofb_feedback) block_out 16 in
  mk_ofb ciphertext block_out feedback (S s.(ofb_calls)).

End OFB_vocabulary.

(** ** The caller's memory *)

Section Heap_vocabulary.

Variables (m : Heap.mem) (ct pt L ivp keyp : Z).

(** The inner loops of [OFBaes128e], on the memory. *)
Definition heap_xor_loop (off n : Z) (block_out : list Z) (m1 : Heap.mem) : Heap.mem :=
  for_range 0 n (fun j m =>
    Heap.store m (ct + u32 (u32 off + j))
      (u8 (Z.lxor (m (pt + u32 (u32 off + j))) (rd block_out j)))) m1.

(** The plaintext is not overwritten before it is read: the ciphertext
    buffer does not start inside the plaintext buffer after its first
    byte. *)
Definition readable_plaintext : Prop := ct <= pt \/ pt + L <= ct.

(** The key is outside of the bytes that are written. *)
Definition separate_key : Prop := keyp + 16 <= ct \/ ct + L <= keyp.

(** The state of [Heap.OFBaes128e] after [i] full blocks. *)
Definition heap_inv (i : Z) (s : Heap.ofb_state) : Prop :=
  (forall a, ~ (ct <= a < ct + i * 16) -> Heap.ofb_memory s a = m a) /\
  (separate_key -> readable_plaintext ->
     Heap.ofb_feedback s =
       chaining (Heap.load_bytes m keyp 16) (Heap.load_bytes m ivp 16) (Z.to_nat i) /\
     length (Heap.ofb_block_out s) = 16%nat /\
     forall k, 0 <= k < i * 16 ->
       Heap.ofb_memory s (ct + k) =
       ofb_byte (Heap.load_bytes m keyp 16) (Heap.load_bytes m ivp 16)
         (Heap.load_bytes m pt L) k).

(** The body of the loop of [Heap.OFBaes128e] over the full blocks. *)
Definition heap_block_step (i : Z) (s : Heap.ofb_state) : Heap.ofb_state :=
  let block_out :=
    aes128e s.(Heap.ofb_block_out) s.(Heap.ofb_feedback)
      (Heap.load_bytes s.(Heap.ofb_memory) keyp 16) in
  let m := heap_xor_loop (i * 16) 16 block_out s.(Heap.ofb_memory) in
  let feedback := memcpy s.(Heap.ofb_feedback) block_out 16 in
  Heap.mk_ofb m block_out feedback.

End Heap_vocabulary.

(** ** Test data *)

(** FIPS-197, Appendix B. *)
Definition fips197_B_key : list Z :=
  [ 0x2b; 0x7e; 0x15; 0x16; 0x28; 0xae; 0xd2; 0xa6;
    0xab; 0xf7; 0x15; 0x88; 0x09; 0xcf; 0x4f; 0x3c ].

Definition fips197_B_input : list Z :=
  [ 0x32; 0x43; 0xf6; 0xa8; 0x88; 0x5a; 0x30; 0x8d;
    0x31; 0x31; 0x98; 0xa2; 0xe0; 0x37; 0x07; 0x34 ].

Definition fips197_B_output : list Z :=
  [ 0x39; 0x25; 0x84; 0x1d; 0x02; 0xdc; 0x09; 0xfb;
    0xdc; 0x11; 0x85; 0x97; 0x19; 0x6a; 0x0b; 0x32 ].

(** FIPS-197, Appendix C.1. *)
Definition fips197_C1_key : list Z :=
  [ 0x00; 0x01; 0x02; 0x03; 0x04; 0x05; 0x06; 0x07;
    0x08; 0x09; 0x0a; 0x0b; 0x0c; 0x0d; 0x0e; 0x0f ].

Definition fips197_C1_input : list Z :=
  [ 0x00; 0x11; 0x22; 0x33; 0x44; 0x55; 0x66; 0x77;
    0x88; 0x99; 0xaa; 0xbb; 0xcc; 0xdd; 0xee; 0xff ].

Definition fips197_C1_output : list Z :=
  [ 0x69; 0xc4; 0xe0; 0xd8; 0x6a; 0x7b; 0x04; 0x30;
    0xd8; 0xcd; 0xb7; 0x80; 0x70; 0xb4; 0xc5; 0x5a ].

(** NIST SP 800-38A, F.4.1: OFB-AES128.Encrypt (the key is that of
    FIPS-197, Appendix B). *)
Definition sp800_38a_iv : list Z :=
  [ 0x00; 0x01; 0x02; 0x03; 0x04; 0x05; 0x06; 0x07;
    0x08; 0x09; 0x0a; 0x0b; 0x0c; 0x0d; 0x0e; 0x0f ].

Definition sp800_38a_plaintext : list Z :=
  [ 0x6b; 0xc1; 0xbe; 0xe2; 0x2e; 0x40; 0x9f; 0x96;
    0xe9; 0x3d; 0x7e; 0x11; 0x73; 0x93; 0x17; 0x2a;
    0xae; 0x2d; 0x8a; 0x57; 0x1e; 0x03; 0xac; 0x9c;
    0x9e; 0xb7; 0x6f; 0xac; 0x45; 0xaf; 0x8e; 0x51;
    0x30; 0xc8; 0x1c; 0x46; 0xa3; 0x5c; 0xe4; 0x11;
    0xe5; 0xfb; 0xc1; 0x19; 0x1a; 0x0a; 0x52; 0xef;
    0xf6; 0x9f; 0x24; 0x45; 0xdf; 0x4f; 0x9b; 0x17;
    0xad; 0x2b; 0x41; 0x7b; 0xe6; 0x6c; 0x37; 0x10 ].

Definition sp800_38a_ofb_ciphertext : list Z :=
  [ 0x3b; 0x3f; 0xd9; 0x2e; 0xb7; 0x2d; 0xad; 0x20;
    0x33; 0x34; 0x49; 0xf8; 0xe8; 0x3c; 0xfb; 0x4a;
    0x77; 0x89; 0x50; 0x8d; 0x16; 0x91; 0x8f; 0x03;
    0xf5; 0x3c; 0x52; 0xda; 0xc5; 0x4e; 0xd8; 0x25;
    0x97; 0x40; 0x05; 0x1e; 0x9c; 0x5f; 0xec; 0xf6;
    0x43; 0x44; 0xf7; 0xa8; 0x22; 0x60; 0xed; 0xcc;
    0x30; 0x4c; 0x65; 0x28; 0xf6; 0x59; 0xc7; 0x78;
    0x66; 0xa5; 0x10; 0xd9; 0xc1; 0xd6; 0xae; 0x5e ].

Definition zeros16 : list Z := replicate 16 0.

(** The AES-128 encryption of the all-zero block under the all-zero key. *)
Definition aes128_zero_block : list Z :=
  [ 0x66; 0xe9; 0x4b; 0xd4; 0xef; 0x8a; 0x2c; 0x3b;
    0x88; 0x4c; 0xfa; 0x59; 0xca; 0x34; 0x2b; 0x2e ].

(** A plaintext of 33 bytes: two full blocks and one byte. *)
Definition sample33 : list Z := seqZ 0 33.

(** A memory of zero bytes, with the plaintext at 0, the IV at 16 and the
    key at 32. *)
Definition zero_memory : Heap.mem := fun _ => 0.

(** Encryption in place: [OFBaes128e(buf, buf, 16, iv, key)]. *)
Definition in_place_call : Heap.mem := Heap.OFBaes128e zero_memory 0 0 16 16 32.

(** The ciphertext written over the IV: [OFBaes128e(iv, buf, 16, iv, key)]. *)
Definition over_iv_call : Heap.mem := Heap.OFBaes128e zero_memory 16 0 16 16 32.

(** A memory with distinct bytes, the ciphertext buffer at 100, the
    plaintext at 200, the IV at 300 and the key at 400. *)
Definition sample_memory : Heap.mem := fun a => a mod 251.

(** An environment in which files can be created and [malloc] succeeds,
    and files for a run of [main]. *)
Definition sample_env : environment :=
  mk_env (fun _ => true) (fun _ => true) (fun k => k mod 256).

Definition sample_files : file_system :=
  fun p =>
    if String.eqb p "in" then Some sample33
    else if String.eqb p "key" then Some fips197_C1_key
    else if String.eqb p "iv" then Some zeros16
    else if String.eqb p "shortkey" then Some (replicate 10 0)
    else None.

(** * Properties *)

(** ** Bytes *)

Lemma u8_mod (z : Z) : u8 z = z mod 256.
Proof. unfold u8. change 255 with (Z.ones 8). now rewrite Z.land_ones by lia. Qed.

Lemma u8_is_byte (z : Z) : is_byte (u8 z).
Proof. rewrite u8_mod. unfold is_byte. pose proof (Z.mod_pos_bound z 256). lia. Qed.

Lemma u8_id (z : Z) : is_byte z -> u8 z = z.
Proof. intros H. rewrite u8_mod. apply Z.mod_small. exact H. Qed.

Lemma byte_high_bits (z n : Z) : is_byte z -> 8 <= n -> Z.testbit z n = false.
Proof.
  intros Hz Hn. rewrite <- (Z.mod_small z (2 ^ 8)) by exact Hz.
  apply Z.mod_pow2_bits_high. lia.
Qed.

Lemma lxor_is_byte (a b : Z) : is_byte a -> is_byte b -> is_byte (Z.lxor a b).
Proof.
  intros Ha Hb.
  assert (E : Z.lxor a b = u8 (Z.lxor a b)).
  { apply Z.bits_inj'. intros n Hn. unfold u8. change 255 with (Z.ones 8).
    rewrite Z.land_spec, Z.lxor_spec.
    destruct (Z_lt_le_dec n 8) as [Hlt|Hge].
    - rewrite Z.ones_spec_low by lia. now rewrite andb_true_r.
    - rewrite Z.ones_spec_high by lia.
      rewrite (byte_high_bits a n Ha Hge), (byte_high_bits b n Hb Hge).
      reflexivity. }
  rewrite E. apply u8_is_byte.
Qed.

Lemma u8_lxor (a b : Z) : is_byte a -> is_byte b -> u8 (Z.lxor a b) = Z.lxor a b.
Proof. intros Ha Hb. apply u8_id, lxor_is_byte; assumption. Qed.

Lemma lxor_cancel_r (a b : Z) : Z.lxor (Z.lxor a b) b = a.
Proof. now rewrite Z.lxor_assoc, Z.lxor_nilpotent, Z.lxor_0_r. Qed.

Lemma is_byteb_spec (z : Z) : is_byteb z = true <-> is_byte z.
Proof. unfold is_byteb, is_byte. rewrite andb_true_iff. lia. Qed.

Lemma bytes_dec (n : Z) (l : list Z) :
  (Z.of_nat (length l) =? n) && forallb is_byteb l = true -> bytes n l.
Proof.
  rewrite andb_true_iff, forallb_forall. intros [Hn Hl]. split; [lia|].
  apply Forall_forall. intros x Hx. apply is_byteb_spec, Hl, list_elem_of_In, Hx.
Qed.

Lemma byte_cases (P : Z -> bool) :
  forallb P (seqZ 0 256) = true -> forall x, is_byte x -> P x = true.
Proof.
  rewrite forallb_forall. intros H x Hx. apply H.
  apply list_elem_of_In, elem_of_seqZ. unfold is_byte in Hx. lia.
Qed.

(** ** Arrays *)

Lemma length_wr (a : list Z) (i v : Z) : length (wr a i v) = length a.
Proof. apply length_insert. Qed.

Lemma rd_wr_eq (a : list Z) (i v : Z) :
  0 <= i < Z.of_nat (length a) -> rd (wr a i v) i = v.
Proof.
  intros H. unfold rd, wr. rewrite list_lookup_insert_eq by lia. reflexivity.
Qed.

Lemma rd_wr_ne (a : list Z) (i j v : Z) :
  0 <= i -> 0 <= j -> i <> j -> rd (wr a i v) j = rd a j.
Proof.
  intros Hi Hj Hne. unfold rd, wr. rewrite list_lookup_insert_ne by lia. reflexivity.
Qed.

Lemma rd_oob (a : list Z) (i : Z) : Z.of_nat (length a) <= i -> rd a i = 0.
Proof.
  intros H. unfold rd. rewrite lookup_ge_None_2 by lia. reflexivity.
Qed.

Lemma rd_is_byte (a : list Z) (i : Z) : Forall is_byte a -> is_byte (rd a i).
Proof.
  intros Ha. unfold rd. destruct (a !! Z.to_nat i) as [x|] eqn:E; simpl.
  - eapply Forall_lookup_1; eassumption.
  - unfold is_byte. lia.
Qed.

Lemma wr_is_byte (a : list Z) (i v : Z) :
  Forall is_byte a -> is_byte v -> Forall is_byte (wr a i v).
Proof. intros Ha Hv. unfold wr. apply Forall_insert; assumption. Qed.

(** Two arrays of one length with the same entries are equal. *)
Lemma rd_ext (a b : list Z) :
  length a = length b ->
  (forall i, 0 <= i < Z.of_nat (length a) -> rd a i = rd b i) ->
  a = b.
Proof.
  intros Hlen H. apply list_eq_same_length with (n := length a); try lia.
  intros i x y Hi Hx Hy.
  specialize (H (Z.of_nat i) ltac:(lia)). unfold rd in H.
  rewrite Nat2Z.id, Hx, Hy in H. exact H.
Qed.

Lemma rd_take (a : list Z) (n : nat) (i : Z) :
  0 <= i < Z.of_nat n -> rd (take n a) i = rd a i.
Proof. intros H. unfold rd. rewrite lookup_take_lt by lia. reflexivity. Qed.

Lemma rd_drop (a : list Z) (n : nat) (i : Z) :
  0 <= i -> rd (drop n a) i = rd a (Z.of_nat n + i).
Proof.
  intros H. unfold rd. rewrite lookup_drop. do 3 f_equal. lia.
Qed.

Lemma rd_xor_bytes (a b : list Z) (i : Z) :
  0 <= i < Z.of_nat (length a) -> 0 <= i < Z.of_nat (length b) ->
  rd (xor_bytes a b) i = Z.lxor (rd a i) (rd b i).
Proof.
  intros Ha Hb. unfold rd, xor_bytes. rewrite lookup_zip_with.
  destruct (lookup_lt_is_Some_2 a (Z.to_nat i) ltac:(lia)) as [x ->].
  destruct (lookup_lt_is_Some_2 b (Z.to_nat i) ltac:(lia)) as [y ->].
  reflexivity.
Qed.

Lemma length_xor_bytes (a b : list Z) :
  length (xor_bytes a b) = Nat.min (length a) (length b).
Proof. apply length_zip_with. Qed.

(** ** Loops *)

Lemma for_range_nil {S : Type} (lo hi : Z) (body : Z -> S -> S) (s : S) :
  hi <= lo -> for_range lo hi body s = s.
Proof.
  intros H. unfold for_range. replace (Z.to_nat (hi - lo)) with O by lia. reflexivity.
Qed.

Lemma iter_from_last {S : Type} (n : nat) (i : Z) (body : Z -> S -> S) (s : S) :
  iter_from (Datatypes.S n) i body s = body (i + Z.of_nat n) (iter_from n i body s).
Proof.
  revert i s. induction n as [|n IH]; intros i s.
  - simpl. now rewrite Z.add_0_r.
  - change (iter_from (Datatypes.S (Datatypes.S n)) i body s)
      with (iter_from (Datatypes.S n) (i + 1) body (body i s)).
    rewrite IH. simpl. f_equal. lia.
Qed.

(** The last iteration of a loop. *)
Lemma for_range_last {S : Type} (lo hi : Z) (body : Z -> S -> S) (s : S) :
  lo <= hi -> for_range lo (hi + 1) body s = body hi (for_range lo hi body s).
Proof.
  intros H. unfold for_range.
  replace (Z.to_nat (hi + 1 - lo)) with (Datatypes.S (Z.to_nat (hi - lo))) by lia.
  rewrite iter_from_last. f_equal. lia.
Qed.

(** Loop invariants. *)
Lemma for_range_inv {S : Type} (P : Z -> S -> Prop) (lo hi : Z)
    (body : Z -> S -> S) (s : S) :
  lo <= hi ->
  P lo s ->
  (forall i s, lo <= i < hi -> P i s -> P (i + 1) (body i s)) ->
  P hi (for_range lo hi body s).
Proof.
  intros Hle H0 Hstep.
  assert (G : forall n : nat, Z.of_nat n <= hi - lo ->
             P (lo + Z.of_nat n) (for_range lo (lo + Z.of_nat n) body s)).
  { induction n as [|n IH]; intros Hn.
    - rewrite Z.add_0_r, for_range_nil by lia. exact H0.
    - replace (lo + Z.of_nat (Datatypes.S n)) with (lo + Z.of_nat n + 1) by lia.
      rewrite for_range_last by lia. apply Hstep; [lia|]. apply IH. lia. }
  specialize (G (Z.to_nat (hi - lo)) ltac:(lia)).
  replace (lo + Z.of_nat (Z.to_nat (hi - lo))) with hi in G by lia. exact G.
Qed.

(** Two loops whose bodies agree on the range agree. *)
Lemma for_range_ext {S : Type} (lo hi : Z) (body body' : Z -> S -> S) (s : S) :
  (forall i s, lo <= i < hi -> body i s = body' i s) ->
  for_range lo hi body s = for_range lo hi body' s.
Proof.
  intros H. destruct (Z_le_gt_dec lo hi) as [Hle|Hgt].
  - apply (for_range_inv (fun i t => t = for_range lo i body' s)); trivial.
    + now rewrite for_range_nil by lia.
    + intros i t Hi ->. rewrite for_range_last by lia. apply H. exact Hi.
  - now rewrite !for_range_nil by lia.
Qed.

Lemma length_update_range (off n : Z) (g : Z -> Z -> Z) (a : list Z) :
  length (update_range off n g a) = length a.
Proof.
  unfold update_range. destruct (Z_le_gt_dec 0 n) as [Hn|Hn].
  - apply (for_range_inv (fun _ b => length b = length a)); trivial.
    intros i b _ Hb. now rewrite length_wr.
  - now rewrite for_range_nil by lia.
Qed.

Lemma rd_update_range (off n : Z) (g : Z -> Z -> Z) (a : list Z) (k : Z) :
  0 <= off -> off + n <= Z.of_nat (length a) -> 0 <= k ->
  rd (update_range off n g a) k =
  if (off <=? k) && (k <? off + n) then g (k - off) (rd a k) else rd a k.
Proof.
  intros Hoff Hlen Hk. unfold update_range. destruct (Z_le_gt_dec 0 n) as [Hn|Hn].
  - revert k Hk.
    refine (proj2 (for_range_inv (fun i b =>
      length b = length a /\
      forall k, 0 <= k -> rd b k =
        if (off <=? k) && (k <? off + i) then g (k - off) (rd a k) else rd a k)
      0 n _ a Hn _ _)).
    + split; [reflexivity|]. intros k' Hk'.
      destruct (Z.leb_spec off k'), (Z.ltb_spec k' (off + 0)); simpl; trivial; lia.
    + intros i b Hi [Hb IH]. split; [now rewrite length_wr|]. intros k' Hk'.
      destruct (Z.eq_dec k' (off + i)) as [->|Hne].
      * rewrite rd_wr_eq by lia. rewrite IH by lia.
        destruct (Z.leb_spec off (off + i)), (Z.ltb_spec (off + i) (off + (i + 1))),
          (Z.ltb_spec (off + i) (off + i)); simpl; try lia. f_equal. lia.
      * rewrite rd_wr_ne by lia. rewrite IH by lia.
        destruct (Z.leb_spec off k'), (Z.ltb_spec k' (off + i)),
          (Z.ltb_spec k' (off + (i + 1))); simpl; trivial; lia.
  - rewrite for_range_nil by lia.
    destruct (Z.leb_spec off k), (Z.ltb_spec k (off + n)); simpl; trivial; lia.
Qed.

Lemma update_range_is_byte (off n : Z) (g : Z -> Z -> Z) (a : list Z) :
  Forall is_byte a -> (forall i x, is_byte (g i x)) ->
  Forall is_byte (update_range off n g a).
Proof.
  intros Ha Hg. unfold update_range. destruct (Z_le_gt_dec 0 n) as [Hn|Hn].
  - apply (for_range_inv (fun _ b => Forall is_byte b)); trivial.
    intros i b _ Hb. apply wr_is_byte; trivial.
  - now rewrite for_range_nil by lia.
Qed.

(** A loop over a whole array whose new entries are bytes leaves bytes. *)
Lemma update_range_all_bytes (n : Z) (g : Z -> Z -> Z) (a : list Z) :
  Z.of_nat (length a) = n -> (forall i x, is_byte (g i x)) ->
  Forall is_byte (update_range 0 n g a).
Proof.
  intros Hlen Hg. apply Forall_lookup_2. intros i x Hix.
  pose proof (lookup_lt_Some _ _ _ Hix) as Hi.
  rewrite length_update_range in Hi.
  assert (E : rd (update_range 0 n g a) (Z.of_nat i) = x).
  { unfold rd. now rewrite Nat2Z.id, Hix. }
  rewrite rd_update_range in E by lia.
  destruct (Z.leb_spec 0 (Z.of_nat i)), (Z.ltb_spec (Z.of_nat i) (0 + n));
    simpl in E; try lia.
  rewrite <- E. apply Hg.
Qed.

(** ** memcpy *)

Lemma memcpy_update (dst src : list Z) (n : Z) :
  memcpy dst src n = update_range 0 n (fun i _ => rd src i) dst.
Proof. reflexivity. Qed.

Lemma length_memcpy (dst src : list Z) (n : Z) : length (memcpy dst src n) = length dst.
Proof. rewrite memcpy_update. apply length_update_range. Qed.

Lemma rd_memcpy (dst src : list Z) (n k : Z) :
  n <= Z.of_nat (length dst) -> 0 <= k ->
  rd (memcpy dst src n) k = if k <? n then rd src k else rd dst k.
Proof.
  intros Hn Hk. rewrite memcpy_update, rd_update_range by lia.
  destruct (Z.leb_spec 0 k), (Z.ltb_spec k (0 + n)), (Z.ltb_spec k n);
    simpl; try lia; trivial. f_equal. lia.
Qed.

(** Copying a whole array over an array of the same size gives the source. *)
Lemma memcpy_all (dst src : list Z) (n : Z) :
  Z.of_nat (length dst) = n -> Z.of_nat (length src) = n -> memcpy dst src n = src.
Proof.
  intros Hd Hs. apply rd_ext.
  - rewrite length_memcpy. lia.
  - intros i Hi. rewrite length_memcpy in Hi. rewrite rd_memcpy by lia.
    destruct (Z.ltb_spec i n); trivial; lia.
Qed.

(** ** The round transformations keep a 16-byte state *)

Lemma AddRoundKey_update (round : Z) (state RoundKey : list Z) :
  AddRoundKey round state RoundKey =
  update_range 0 16
    (fun i x => u8 (Z.lxor x (rd RoundKey (round * Nb * 4 + i)))) state.
Proof. reflexivity. Qed.

Lemma SubBytes_update (state : list Z) :
  SubBytes state = update_range 0 16 (fun _ x => rd sbox x) state.
Proof. reflexivity. Qed.

Lemma length_AddRoundKey (round : Z) (state RoundKey : list Z) :
  length (AddRoundKey round state RoundKey) = length state.
Proof. rewrite AddRoundKey_update. apply length_update_range. Qed.

Lemma length_SubBytes (state : list Z) : length (SubBytes state) = length state.
Proof. rewrite SubBytes_update. apply length_update_range. Qed.

Lemma length_ShiftRows (state : list Z) : length (ShiftRows state) = length state.
Proof. unfold ShiftRows. now rewrite !length_wr. Qed.

Lemma length_MixColumns (state : list Z) : length (MixColumns state) = length state.
Proof.
  unfold MixColumns.
  apply (for_range_inv (fun _ b => length b = length state)); trivial; [lia|].
  intros i b _ Hb. now rewrite !length_wr.
Qed.

Lemma aes128e_memcpy (output input key : list Z) :
  aes128e output input key = memcpy output (final_state input key) 16.
Proof. unfold aes128e, final_state. cbv zeta. reflexivity. Qed.

Lemma final_state_bytes (input key : list Z) : bytes 16 (final_state input key).
Proof.
  unfold final_state.
  set (RK := KeyExpansion _ _). set (s0 := AddRoundKey 0 _ _).
  assert (H0 : length s0 = 16%nat).
  { unfold s0. now rewrite length_AddRoundKey, length_memcpy, length_replicate. }
  set (s9 := for_range _ _ _ _).
  assert (H9 : length s9 = 16%nat).
  { unfold s9. apply (for_range_inv (fun _ b => length b = 16%nat)); trivial.
    - unfold Nr. lia.
    - intros i b _ Hb.
      now rewrite length_AddRoundKey, length_MixColumns, length_ShiftRows, length_SubBytes. }
  split.
  - now rewrite length_AddRoundKey, length_ShiftRows, length_SubBytes, H9.
  - rewrite AddRoundKey_update. apply update_range_all_bytes.
    + now rewrite length_ShiftRows, length_SubBytes, H9.
    + intros i x. apply u8_is_byte.
Qed.

Lemma aes128e_output (output input key : list Z) :
  length output = 16%nat -> aes128e output input key = encrypt_block input key.
Proof.
  intros H. unfold encrypt_block. rewrite !aes128e_memcpy.
  destruct (final_state_bytes input key) as [Hlen _].
  rewrite !memcpy_all; trivial; try lia.
Qed.

Lemma encrypt_block_bytes (input key : list Z) : bytes 16 (encrypt_block input key).
Proof.
  unfold encrypt_block. rewrite aes128e_memcpy.
  destruct (final_state_bytes input key) as [Hlen Hb].
  rewrite memcpy_all; [split; assumption| |lia]. rewrite length_replicate. lia.
Qed.

(** ** The key schedule *)

Lemma key_expansion_step_eq i RK : 
  key_expansion_step i RK =
    let t := key_temp i RK in
    let j := i * 4 in
    let k := (i - Nk) * 4 in
    let RoundKey := wr RK (j + 0) (u8 (Z.lxor (rd RK (k + 0)) (rd t 0))) in
    let RoundKey := wr RoundKey (j + 1) (u8 (Z.lxor (rd RoundKey (k + 1)) (rd t 1))) in
    let RoundKey := wr RoundKey (j + 2) (u8 (Z.lxor (rd RoundKey (k + 2)) (rd t 2))) in
    let RoundKey := wr RoundKey (j + 3) (u8 (Z.lxor (rd RoundKey (k + 3)) (rd t 3))) in
    RoundKey.
Proof.
  unfold key_expansion_step, key_temp. cbv zeta. destruct (i mod Nk =? 0); reflexivity.
Qed.

Ltac rd_wr :=
  repeat first [ rewrite rd_wr_eq by (rewrite ?length_wr; lia)
               | rewrite rd_wr_ne by lia ].

Lemma length_key_expansion_step i RK : length (key_expansion_step i RK) = length RK.
Proof. rewrite key_expansion_step_eq. cbv zeta. now rewrite !length_wr. Qed.

Lemma rd_key_expansion_step i RK p :
  4 <= i -> i * 4 + 4 <= Z.of_nat (length RK) -> 0 <= p ->
  rd (key_expansion_step i RK) p =
  if (i * 4 <=? p) && (p <? i * 4 + 4)
  then u8 (Z.lxor (rd RK (p - 16)) (rd (key_temp i RK) (p - i * 4)))
  else rd RK p.
Proof.
  intros Hi Hlen Hp. rewrite key_expansion_step_eq. cbv zeta. unfold Nk.
  destruct (Z.leb_spec (i * 4) p), (Z.ltb_spec p (i * 4 + 4)); simpl;
    [|now rd_wr..].
  assert (Hc : p = i * 4 + 0 \/ p = i * 4 + 1 \/ p = i * 4 + 2 \/ p = i * 4 + 3) by lia.
  destruct Hc as [-> | [-> | [-> | ->]]]; rd_wr; do 2 f_equal; f_equal; lia.
Qed.

Lemma sbox_bytes : bytes 256 sbox.
Proof. apply bytes_dec. vm_compute. reflexivity. Qed.

Lemma Rcon_bytes : bytes 11 Rcon.
Proof. apply bytes_dec. vm_compute. reflexivity. Qed.

Lemma sbox_is_byte x : is_byte (rd sbox x).
Proof. apply rd_is_byte, sbox_bytes. Qed.

Lemma key_temp_word i RK :
  key_temp i RK =
  if i mod 4 =? 0
  then [ u8 (Z.lxor (rd sbox (rd RK (4 * (i - 1) + 1))) (rd Rcon (i / 4)));
         rd sbox (rd RK (4 * (i - 1) + 2)); rd sbox (rd RK (4 * (i - 1) + 3));
         rd sbox (rd RK (4 * (i - 1))) ]
  else word RK (i - 1).
Proof.
  unfold key_temp, word, Nk. cbv zeta.
  replace ((i - 1) * 4 + 0) with (4 * (i - 1)) by lia.
  replace ((i - 1) * 4 + 1) with (4 * (i - 1) + 1) by lia.
  replace ((i - 1) * 4 + 2) with (4 * (i - 1) + 2) by lia.
  replace ((i - 1) * 4 + 3) with (4 * (i - 1) + 3) by lia.
  reflexivity.
Qed.

Lemma rd_four (a b c d : Z) :
  rd [a; b; c; d] 0 = a /\ rd [a; b; c; d] 1 = b /\
  rd [a; b; c; d] 2 = c /\ rd [a; b; c; d] 3 = d.
Proof. repeat split; reflexivity. Qed.

Lemma Rcon_is_byte x : is_byte (rd Rcon x).
Proof. apply rd_is_byte, Rcon_bytes. Qed.

Lemma word_step i RK :
  4 <= i -> i * 4 + 4 <= Z.of_nat (length RK) ->
  (forall p, 0 <= p < 4 * i -> is_byte (rd RK p)) ->
  word (key_expansion_step i RK) i = next_word i (word RK (i - 4)) (word RK (i - 1)).
Proof.
  intros Hi Hlen Hb.
  assert (E : forall n, 0 <= n < 4 ->
    rd (key_expansion_step i RK) (4 * i + n) =
    u8 (Z.lxor (rd RK (4 * (i - 4) + n)) (rd (key_temp i RK) n))).
  { intros n Hn. rewrite rd_key_expansion_step by lia.
    destruct (Z.leb_spec (i * 4) (4 * i + n)), (Z.ltb_spec (4 * i + n) (i * 4 + 4));
      simpl; try lia.
    do 2 f_equal; f_equal; lia. }
  unfold word at 1.
  replace (4 * i) with (4 * i + 0) at 1 by lia.
  rewrite !E by lia. rewrite key_temp_word. unfold next_word.
  replace (4 * (i - 4) + 0) with (4 * (i - 4)) by lia.
  destruct (i mod 4 =? 0).
  - unfold schedule_core, sub_word, rot_word, word, xor_bytes. simpl.
    destruct (rd_four
      (u8 (Z.lxor (rd sbox (rd RK (4 * (i - 1) + 1))) (rd Rcon (i / 4))))
      (rd sbox (rd RK (4 * (i - 1) + 2))) (rd sbox (rd RK (4 * (i - 1) + 3)))
      (rd sbox (rd RK (4 * (i - 1))))) as (_ & -> & -> & ->).
    rewrite (u8_lxor (rd sbox _) (rd Rcon _)) by (apply sbox_is_byte || apply Rcon_is_byte).
    rewrite !u8_lxor;
      repeat first [ apply lxor_is_byte | apply sbox_is_byte | apply Rcon_is_byte
                   | apply Hb; lia ].
    reflexivity.
  - unfold word, xor_bytes. simpl.
    destruct (rd_four (rd RK (4 * (i - 1))) (rd RK (4 * (i - 1) + 1))
      (rd RK (4 * (i - 1) + 2)) (rd RK (4 * (i - 1) + 3))) as (-> & -> & -> & ->).
    rewrite !u8_lxor by (apply Hb; lia).
    reflexivity.
Qed.

Lemma KeyExpansion_unfold RoundKey Key :
  KeyExpansion RoundKey Key =
  for_range Nk (Nb * (Nr + 1)) key_expansion_step
    (for_range 0 Nk (key_copy_step Key) RoundKey).
Proof. reflexivity. Qed.

Lemma rd_key_copy_step Key i RK p :
  0 <= i -> i * 4 + 4 <= Z.of_nat (length RK) -> 0 <= p ->
  rd (key_copy_step Key i RK) p =
  if (i * 4 <=? p) && (p <? i * 4 + 4) then rd Key p else rd RK p.
Proof.
  intros Hi Hlen Hp. unfold key_copy_step. cbv zeta.
  destruct (Z.leb_spec (i * 4) p), (Z.ltb_spec p (i * 4 + 4)); simpl;
    [|now rd_wr..].
  assert (Hc : p = i * 4 + 0 \/ p = i * 4 + 1 \/ p = i * 4 + 2 \/ p = i * 4 + 3) by lia.
  destruct Hc as [-> | [-> | [-> | ->]]]; rd_wr; reflexivity.
Qed.

(** After the first loop the first 16 bytes are the key. *)
Lemma key_copy_loop Key RK :
  length RK = 176%nat ->
  let RK' := for_range 0 Nk (key_copy_step Key) RK in
  length RK' = 176%nat /\ forall p, 0 <= p < 16 -> rd RK' p = rd Key p.
Proof.
  intros Hlen. cbv zeta.
  assert (G : length (for_range 0 Nk (key_copy_step Key) RK) = 176%nat /\
              forall p, 0 <= p < Nk * 4 ->
                rd (for_range 0 Nk (key_copy_step Key) RK) p = rd Key p).
  { apply (for_range_inv (fun i RK' =>
      length RK' = 176%nat /\ forall p, 0 <= p < i * 4 -> rd RK' p = rd Key p)).
    - unfold Nk. lia.
    - split; [exact Hlen | intros p Hp; lia].
    - unfold Nk. intros i RK' Hi [Hl IH]. split.
      + unfold key_copy_step. now rewrite !length_wr.
      + intros p Hp. rewrite rd_key_copy_step by lia.
        destruct (Z.leb_spec (i * 4) p), (Z.ltb_spec p (i * 4 + 4)); simpl;
          trivial; apply IH; lia. }
  exact G.
Qed.

Lemma word_frame i RK w :
  4 <= i -> i * 4 + 4 <= Z.of_nat (length RK) -> 0 <= w < i ->
  word (key_expansion_step i RK) w = word RK w.
Proof.
  intros Hi Hlen Hw. unfold word. rewrite !rd_key_expansion_step by lia.
  destruct (Z.leb_spec (i * 4) (4 * w)), (Z.leb_spec (i * 4) (4 * w + 1)),
    (Z.leb_spec (i * 4) (4 * w + 2)), (Z.leb_spec (i * 4) (4 * w + 3));
    try lia. reflexivity.
Qed.

Lemma key_expansion_step_inv Key i RK :
  4 <= i < 44 -> key_inv Key i RK -> key_inv Key (i + 1) (key_expansion_step i RK).
Proof.
  intros Hi (Hlen & Hkey & Hb & Hw).
  assert (Hrd : forall p, 0 <= p < 4 * i -> rd (key_expansion_step i RK) p = rd RK p).
  { intros p Hp. rewrite rd_key_expansion_step by lia.
    destruct (Z.leb_spec (i * 4) p); trivial; lia. }
  split; [|split; [|split]].
  - now rewrite length_key_expansion_step.
  - intros p Hp. rewrite Hrd by lia. apply Hkey. exact Hp.
  - intros p Hp. destruct (Z_lt_le_dec p (4 * i)) as [Hlt|Hge].
    + rewrite Hrd by lia. apply Hb. lia.
    + rewrite rd_key_expansion_step by lia.
      destruct (Z.leb_spec (i * 4) p), (Z.ltb_spec p (i * 4 + 4)); simpl; try lia.
      apply u8_is_byte.
  - intros w Hwi. destruct (Z.eq_dec w i) as [->|Hne].
    + rewrite (word_frame i RK (i - 4)), (word_frame i RK (i - 1)) by lia.
      apply word_step; trivial; lia.
    + rewrite !word_frame by lia. apply Hw. lia.
Qed.

Lemma KeyExpansion_inv Key RK :
  bytes 16 Key -> length RK = 176%nat -> key_inv Key 44 (KeyExpansion RK Key).
Proof.
  intros [Hklen Hkb] Hlen. rewrite KeyExpansion_unfold.
  destruct (key_copy_loop Key RK Hlen) as [Hl Hk].
  apply (for_range_inv (key_inv Key)).
  - unfold Nk, Nb, Nr. lia.
  - unfold Nk. split; [|split; [|split]]; trivial.
    + intros p Hp. rewrite Hk by lia. now apply rd_is_byte.
    + intros w Hw. lia.
  - unfold Nk, Nb, Nr. intros i RK' Hi. apply key_expansion_step_inv. lia.
Qed.

Lemma rd_round_key_block (RoundKey : list Z) (k i : Z) :
  0 <= k -> 0 <= i < 16 -> rd (round_key_block RoundKey k) i = rd RoundKey (16 * k + i).
Proof.
  intros Hk Hi. unfold round_key_block. rewrite rd_take, rd_drop by lia.
  f_equal. lia.
Qed.

Lemma rd_head (x : Z) (l : list Z) (i : Z) : i = 0 -> rd (x :: l) i = x.
Proof. intros ->. reflexivity. Qed.

Lemma rd_cons (x : Z) (l : list Z) (i : Z) : 0 < i -> rd (x :: l) i = rd l (i - 1).
Proof.
  intros Hi. unfold rd. replace (Z.to_nat i) with (S (Z.to_nat (i - 1))) by lia.
  reflexivity.
Qed.

(** Entry [i] of an array written out in full. *)
Ltac rd_explicit :=
  repeat (rewrite rd_cons by lia); rewrite rd_head by lia.

Lemma KeyExpansion_bytes (key RoundKey0 : list Z) :
  bytes 16 key -> length RoundKey0 = 176%nat -> bytes 176 (KeyExpansion RoundKey0 key).
Proof.
  intros Hkey Hlen.
  destruct (KeyExpansion_inv key RoundKey0 Hkey Hlen) as (Hl & _ & Hb & _).
  split; [lia|]. apply Forall_lookup_2. intros i x Hix.
  pose proof (lookup_lt_Some _ _ _ Hix) as Hi.
  rewrite Hl in Hi.
  assert (E : rd (KeyExpansion RoundKey0 key) (Z.of_nat i) = x).
  { unfold rd. rewrite Nat2Z.id, Hix. reflexivity. }
  rewrite <- E. apply Hb. lia.
Qed.

(** ** The rounds *)

Lemma seqZ_cons' (m n : Z) : 0 < n -> seqZ m n = m :: seqZ (m + 1) (n - 1).
Proof. intros H. rewrite seqZ_cons by lia. reflexivity. Qed.

Lemma iter_from_foldl {S : Type} (n : nat) (i : Z) (body : Z -> S -> S) (s : S) :
  iter_from n i body s = foldl (fun s i => body i s) s (seqZ i (Z.of_nat n)).
Proof.
  revert i s. induction n as [|n IH]; intros i s.
  - reflexivity.
  - rewrite seqZ_cons' by lia. simpl. rewrite IH. do 2 f_equal. lia.
Qed.

Lemma for_range_foldl {S : Type} (lo hi : Z) (body : Z -> S -> S) (s : S) :
  lo <= hi ->
  for_range lo hi body s = foldl (fun s i => body i s) s (seqZ lo (hi - lo)).
Proof.
  intros H. unfold for_range. rewrite iter_from_foldl. do 2 f_equal. lia.
Qed.

Lemma list16 (s : list Z) :
  length s = 16%nat ->
  exists s0 s1 s2 s3 s4 s5 s6 s7 s8 s9 s10 s11 s12 s13 s14 s15,
    s = [s0; s1; s2; s3; s4; s5; s6; s7; s8; s9; s10; s11; s12; s13; s14; s15].
Proof.
  intros H.
  do 16 (destruct s as [|? s]; [discriminate H|]).
  destruct s; [|discriminate H]. repeat eexists.
Qed.

Lemma ShiftRows_shift_rows (state : list Z) :
  length state = 16%nat -> ShiftRows state = shift_rows state.
Proof.
  intros H.
  destruct (list16 state H) as (s0 & s1 & s2 & s3 & s4 & s5 & s6 & s7 & s8 & s9 &
    s10 & s11 & s12 & s13 & s14 & s15 & ->).
  reflexivity.
Qed.

Lemma rd_fmap (f : Z -> Z) (l : list Z) (i : Z) :
  0 <= i < Z.of_nat (length l) -> rd (f <$> l) i = f (rd l i).
Proof.
  intros Hi. unfold rd. rewrite list_lookup_fmap.
  destruct (lookup_lt_is_Some_2 l (Z.to_nat i) ltac:(lia)) as [x ->]. reflexivity.
Qed.

Lemma SubBytes_sub_bytes (state : list Z) :
  length state = 16%nat -> SubBytes state = sub_bytes state.
Proof.
  intros H. apply rd_ext.
  - unfold sub_bytes. now rewrite length_SubBytes, length_fmap.
  - intros i Hi. rewrite length_SubBytes in Hi.
    rewrite SubBytes_update, rd_update_range by lia.
    unfold sub_bytes. rewrite rd_fmap by lia.
    destruct (Z.leb_spec 0 i), (Z.ltb_spec i (0 + 16)); simpl; trivial; lia.
Qed.

Lemma AddRoundKey_xor (round : Z) (state RoundKey : list Z) :
  0 <= round <= 10 -> bytes 16 state -> bytes 176 RoundKey ->
  AddRoundKey round state RoundKey = xor_bytes state (round_key_block RoundKey round).
Proof.
  intros Hr [Hslen Hsb] [HRlen HRb].
  assert (Hblen : length (round_key_block RoundKey round) = 16%nat).
  { unfold round_key_block. rewrite length_take, length_drop. lia. }
  apply rd_ext.
  - rewrite length_AddRoundKey, length_xor_bytes. lia.
  - intros i Hi. rewrite length_AddRoundKey in Hi.
    rewrite AddRoundKey_update, rd_update_range by lia.
    rewrite rd_xor_bytes, rd_round_key_block by lia.
    destruct (Z.leb_spec 0 i), (Z.ltb_spec i (0 + 16)); simpl; try lia.
    rewrite u8_lxor by (now apply rd_is_byte).
    unfold Nb. do 2 f_equal. lia.
Qed.

Lemma byte_cases2 (P : Z -> Z -> bool) :
  forallb (fun a => forallb (P a) (seqZ 0 256)) (seqZ 0 256) = true ->
  forall a b, is_byte a -> is_byte b -> P a b = true.
Proof.
  intros H a b Ha Hb.
  pose proof (byte_cases (fun a => forallb (P a) (seqZ 0 256)) H a Ha) as H'.
  simpl in H'. exact (byte_cases (P a) H' b Hb).
Qed.

Lemma xtime_is_byte (x : Z) : is_byte (xtime x).
Proof. apply u8_is_byte. Qed.

(** [xtime] is linear. *)
Lemma xtime_lxor (a b : Z) :
  is_byte a -> is_byte b -> xtime (Z.lxor a b) = Z.lxor (xtime a) (xtime b).
Proof.
  intros Ha Hb. apply Z.eqb_eq.
  apply (byte_cases2 (fun a b => xtime (Z.lxor a b) =? Z.lxor (xtime a) (xtime b)));
    [vm_compute; reflexivity | exact Ha | exact Hb].
Qed.

Ltac xor_bits :=
  apply Z.bits_inj'; intros ?n _; rewrite !Z.lxor_spec;
  repeat match goal with
         | |- context [Z.testbit ?x ?n] => destruct (Z.testbit x n)
         end;
  reflexivity.

(** One entry of a column after [MixColumns]. *)
Lemma mix_entry (x y z : Z) :
  is_byte x -> is_byte y -> is_byte z ->
  u8 (Z.lxor x (Z.lxor (xtime (u8 (Z.lxor x y))) (u8 z))) =
  Z.lxor x (Z.lxor (Z.lxor (xtime x) (xtime y)) z).
Proof.
  intros Hx Hy Hz.
  rewrite (u8_id z), (u8_lxor x y), xtime_lxor by assumption.
  apply u8_id. repeat apply lxor_is_byte; trivial; apply xtime_is_byte.
Qed.

Lemma Forall16 (P : Z -> Prop) s0 s1 s2 s3 s4 s5 s6 s7 s8 s9 s10 s11 s12 s13 s14 s15 :
  Forall P [s0; s1; s2; s3; s4; s5; s6; s7; s8; s9; s10; s11; s12; s13; s14; s15] ->
  (P s0 /\ P s1 /\ P s2 /\ P s3) /\ (P s4 /\ P s5 /\ P s6 /\ P s7) /\
  (P s8 /\ P s9 /\ P s10 /\ P s11) /\ (P s12 /\ P s13 /\ P s14 /\ P s15).
Proof.
  intros H. rewrite !Forall_cons in H. tauto.
Qed.

Lemma mix_column_src (a b c d : Z) :
  is_byte a -> is_byte b -> is_byte c -> is_byte d ->
  let Tmp := u8 (Z.lxor (Z.lxor (Z.lxor a b) c) d) in
  [ u8 (Z.lxor a (Z.lxor (xtime (u8 (Z.lxor a b))) Tmp));
    u8 (Z.lxor b (Z.lxor (xtime (u8 (Z.lxor b c))) Tmp));
    u8 (Z.lxor c (Z.lxor (xtime (u8 (Z.lxor c d))) Tmp));
    u8 (Z.lxor d (Z.lxor (xtime (u8 (Z.lxor d a))) Tmp)) ] =
  mix_column [a; b; c; d].
Proof.
  intros Ha Hb Hc Hd Tmp.
  assert (HT : is_byte (Z.lxor (Z.lxor (Z.lxor a b) c) d))
    by (repeat apply lxor_is_byte; assumption).
  unfold Tmp. rewrite !mix_entry by assumption.
  unfold mix_column, gf_mul2, gf_mul3.
  destruct (rd_four a b c d) as (-> & -> & -> & ->).
  repeat (f_equal; [xor_bits|]). f_equal. xor_bits.
Qed.

Lemma MixColumns_mix_columns (state : list Z) :
  bytes 16 state -> MixColumns state = mix_columns state.
Proof.
  intros [Hlen Hb].
  destruct (list16 state ltac:(lia)) as (s0 & s1 & s2 & s3 & s4 & s5 & s6 & s7 & s8 &
    s9 & s10 & s11 & s12 & s13 & s14 & s15 & ->).
  apply Forall16 in Hb.
  destruct Hb as ((H0 & H1 & H2 & H3) & (H4 & H5 & H6 & H7) &
                  (H8 & H9 & H10 & H11) & (H12 & H13 & H14 & H15)).
  unfold mix_columns. simpl take. simpl drop.
  rewrite <- !mix_column_src by assumption.
  reflexivity.
Qed.

Lemma Forall_rd (l : list Z) :
  (forall i, 0 <= i < Z.of_nat (length l) -> is_byte (rd l i)) -> Forall is_byte l.
Proof.
  intros H. apply Forall_lookup_2. intros i x Hix.
  pose proof (lookup_lt_Some _ _ _ Hix) as Hi.
  specialize (H (Z.of_nat i) ltac:(lia)). unfold rd in H.
  rewrite Nat2Z.id, Hix in H. exact H.
Qed.

Lemma xor_bytes_bytes (n : Z) (a b : list Z) :
  bytes n a -> bytes n b -> bytes n (xor_bytes a b).
Proof.
  intros [Ha Hab] [Hb Hbb]. split.
  - rewrite length_xor_bytes. lia.
  - apply Forall_rd. intros i Hi. rewrite length_xor_bytes in Hi.
    rewrite rd_xor_bytes by lia. apply lxor_is_byte; now apply rd_is_byte.
Qed.

Lemma sub_bytes_bytes (state : list Z) :
  length state = 16%nat -> bytes 16 (sub_bytes state).
Proof.
  intros H. unfold sub_bytes. split.
  - rewrite length_fmap. lia.
  - apply Forall_fmap, Forall_forall. intros x _. apply sbox_is_byte.
Qed.

Lemma shift_rows_bytes (state : list Z) : bytes 16 state -> bytes 16 (shift_rows state).
Proof.
  intros [_ Hb]. unfold shift_rows. split.
  - reflexivity.
  - apply Forall_fmap, Forall_forall. intros x _. now apply rd_is_byte.
Qed.

Lemma mix_columns_bytes (state : list Z) :
  Forall is_byte state -> bytes 16 (mix_columns state).
Proof.
  intros Hb. split; [reflexivity|].
  assert (Hc : forall c, Forall is_byte c -> Forall is_byte (mix_column c)).
  { intros c Hc. unfold mix_column, gf_mul2, gf_mul3.
    repeat apply Forall_cons_2; try apply Forall_nil_2;
      repeat apply lxor_is_byte; try apply xtime_is_byte; now apply rd_is_byte. }
  unfold mix_columns. rewrite !Forall_app.
  repeat split; apply Hc; repeat (apply Forall_take || apply Forall_drop); exact Hb.
Qed.

Lemma foldl_ext_inv {A B : Type} (P : A -> Prop) (f g : A -> B -> A) (l : list B) (a : A) :
  P a ->
  (forall a b, b ∈ l -> P a -> f a b = g a b /\ P (g a b)) ->
  foldl f a l = foldl g a l /\ P (foldl g a l).
Proof.
  revert a. induction l as [|b l IH]; intros a Ha H.
  - split; [reflexivity | exact Ha].
  - simpl. destruct (H a b ltac:(left) Ha) as [E HP]. rewrite E.
    apply IH; [exact HP|]. intros a' b' Hb'. apply H. now right.
Qed.

Lemma round_key_bytes (key : list Z) (round : Z) :
  bytes 16 key -> 0 <= round <= 10 -> bytes 16 (round_key key round).
Proof.
  intros Hkey Hr.
  destruct (KeyExpansion_bytes key (replicate 176 0) Hkey eq_refl) as [Hlen Hb].
  unfold round_key, round_key_block. split.
  - rewrite length_take, length_drop. lia.
  - apply Forall_take, Forall_drop, Hb.
Qed.

Lemma final_state_unfold (input key : list Z) :
  final_state input key =
  AddRoundKey 10
    (ShiftRows (SubBytes
      (for_range 1 10
         (fun round state =>
            AddRoundKey round (MixColumns (ShiftRows (SubBytes state)))
              (KeyExpansion (replicate 176 0) key))
         (AddRoundKey 0 (memcpy (replicate 16 0) input 16)
            (KeyExpansion (replicate 176 0) key)))))
    (KeyExpansion (replicate 176 0) key).
Proof. reflexivity. Qed.

Lemma cipher_unfold (input key : list Z) :
  cipher input key =
  xor_bytes
    (shift_rows (sub_bytes
      (foldl (cipher_round key) (xor_bytes input (round_key key 0)) (seqZ 1 9))))
    (round_key key 10).
Proof. reflexivity. Qed.

Lemma AddRoundKey_round_key (round : Z) (state key : list Z) :
  0 <= round <= 10 -> bytes 16 state -> bytes 16 key ->
  AddRoundKey round state (KeyExpansion (replicate 176 0) key) =
  xor_bytes state (round_key key round).
Proof.
  intros Hr Hs Hkey. apply AddRoundKey_xor; trivial.
  apply KeyExpansion_bytes; trivial.
Qed.

(** One of the rounds 1..9. *)
Lemma round_refines (key state : list Z) (round : Z) :
  bytes 16 key -> bytes 16 state -> 1 <= round <= 9 ->
  AddRoundKey round (MixColumns (ShiftRows (SubBytes state)))
    (KeyExpansion (replicate 176 0) key) = cipher_round key state round /\
  bytes 16 (cipher_round key state round).
Proof.
  intros Hkey [Hslen Hsb] Hr.
  pose proof (sub_bytes_bytes state ltac:(lia)) as H1.
  pose proof (shift_rows_bytes _ H1) as H2.
  pose proof (mix_columns_bytes _ (proj2 H2)) as H3.
  rewrite SubBytes_sub_bytes by lia.
  rewrite ShiftRows_shift_rows by (destruct H1; lia).
  rewrite MixColumns_mix_columns by exact H2.
  rewrite AddRoundKey_round_key by (trivial; lia).
  split; [reflexivity|].
  apply xor_bytes_bytes; [exact H3 | apply round_key_bytes; trivial; lia].
Qed.

(** The final round. *)
Lemma final_round_refines (key state : list Z) :
  bytes 16 key -> bytes 16 state ->
  AddRoundKey 10 (ShiftRows (SubBytes state)) (KeyExpansion (replicate 176 0) key) =
  xor_bytes (shift_rows (sub_bytes state)) (round_key key 10).
Proof.
  intros Hkey [Hslen Hsb].
  pose proof (sub_bytes_bytes state ltac:(lia)) as H1.
  pose proof (shift_rows_bytes _ H1) as H2.
  rewrite SubBytes_sub_bytes by lia.
  rewrite ShiftRows_shift_rows by (destruct H1; lia).
  apply AddRoundKey_round_key; trivial. lia.
Qed.

(** ** The OFB keystream *)

Lemma keystream_chaining (key iv : list Z) (n : nat) :
  keystream key iv n = encrypt_block (chaining key iv n) key.
Proof. destruct n; reflexivity. Qed.

Lemma keystream_bytes (key iv : list Z) (n : nat) : bytes 16 (keystream key iv n).
Proof. destruct n; apply encrypt_block_bytes. Qed.

Lemma keystream_byte_is_byte (key iv : list Z) (k : Z) : is_byte (keystream_byte key iv k).
Proof. apply rd_is_byte. apply keystream_bytes. Qed.

Lemma length_chaining (key iv : list Z) (n : nat) :
  length iv = 16%nat -> length (chaining key iv n) = 16%nat.
Proof.
  intros Hiv. destruct n; simpl; trivial.
  destruct (keystream_bytes key iv n) as [H _]. lia.
Qed.

Lemma u32_index (off j : Z) : 0 <= off -> 0 <= j -> off + j < 2 ^ 32 -> u32 (u32 off + j) = off + j.
Proof.
  intros Hoff Hj Hlt. unfold u32. rewrite (Z.mod_small off) by lia.
  apply Z.mod_small. lia.
Qed.

(** The inner loops of [OFBaes128e]: [n] bytes of [block_out] are XORed
    into the ciphertext at offset [off]. *)
Lemma ofb_inner_loop (off n : Z) (plaintext block_out ct : list Z) :
  0 <= off -> off + n <= 2 ^ 32 ->
  for_range 0 n (fun j ciphertext =>
    wr ciphertext (u32 (u32 off + j))
       (u8 (Z.lxor (rd plaintext (u32 (u32 off + j))) (rd block_out j)))) ct =
  update_range off n
    (fun j _ => u8 (Z.lxor (rd plaintext (off + j)) (rd block_out j))) ct.
Proof.
  intros Hoff Hn. unfold update_range. apply for_range_ext.
  intros j c Hj. now rewrite u32_index by lia.
Qed.

Section OFB.

Variables (key iv plaintext ct0 : list Z) (L : Z).

Hypothesis L_range : 0 <= L < 2 ^ 32.

Hypothesis ct0_room : L <= Z.of_nat (length ct0).

Hypothesis iv_length : length iv = 16%nat.

Lemma length_block_out_inv (i : Z) (s : ofb_state) :
  ofb_inv key iv plaintext ct0 i s -> length (ofb_block_out s) = 16%nat.
Proof.
  intros (_ & Hbo & _). rewrite Hbo. destruct (Z.to_nat i) as [|n].
  - apply length_replicate.
  - destruct (keystream_bytes key iv n) as [H _]. lia.
Qed.

Lemma ofb_block_step_inv (i : Z) (s : ofb_state) :
  0 <= i < L / 16 -> ofb_inv key iv plaintext ct0 i s -> ofb_inv key iv plaintext ct0 (i + 1) ((ofb_block_step key plaintext) i s).
Proof.
  intros Hi Hinv. pose proof (length_block_out_inv i s Hinv) as Hbolen.
  destruct Hinv as (Hfb & Hbo & Hcalls & Hlen & Hct).
  assert (HL16 : (i + 1) * 16 <= L) by (Z.div_mod_to_equations; lia).
  assert (Hks : aes128e (ofb_block_out s) (ofb_feedback s) key
                = keystream key iv (Z.to_nat i)).
  { rewrite aes128e_output by exact Hbolen. now rewrite Hfb, keystream_chaining. }
  unfold ofb_inv, ofb_block_step. rewrite Hks, ofb_inner_loop by lia.
  replace (Z.to_nat (i + 1)) with (S (Z.to_nat i)) by lia.
  destruct (keystream_bytes key iv (Z.to_nat i)) as [Hkslen _].
  repeat split; simpl.
  - apply memcpy_all; [|lia]. rewrite Hfb, length_chaining; trivial.
  - now rewrite Hcalls.
  - now rewrite length_update_range.
  - intros k Hk. rewrite rd_update_range by lia. rewrite Hct by lia.
    destruct (Z.leb_spec (i * 16) k), (Z.ltb_spec k (i * 16 + 16)),
      (Z.ltb_spec k ((i + 1) * 16)), (Z.ltb_spec k (i * 16)); simpl; try lia; trivial.
    unfold ofb_byte, keystream_byte.
    replace (i * 16 + (k - i * 16)) with k by lia.
    replace (k / 16) with i by (Z.div_mod_to_equations; lia).
    replace (k mod 16) with (k - i * 16) by (Z.div_mod_to_equations; lia).
    reflexivity.
Qed.

(** The state after the loop over the full blocks. *)
Lemma ofb_full_blocks_inv :
  ofb_inv key iv plaintext ct0 (L / 16)
    (for_range 0 (L / 16) (ofb_block_step key plaintext)
       (mk_ofb ct0 (replicate 16 0) (memcpy (replicate 16 0) iv 16) O)).
Proof.
  apply for_range_inv.
  - Z.div_mod_to_equations; lia.
  - repeat split; simpl; trivial.
    + apply memcpy_all; [reflexivity | lia].
    + intros k Hk. destruct (Z.ltb_spec k (0 * 16)); trivial; lia.
  - intros i s Hi. apply ofb_block_step_inv. exact Hi.
Qed.

Lemma OFBaes128e_unfold :
  OFBaes128e ct0 plaintext L iv key =
  let s := for_range 0 (L / 16) (ofb_block_step key plaintext)
             (mk_ofb ct0 (replicate 16 0) (memcpy (replicate 16 0) iv 16) O) in
  if 0 <? L mod 16 then
    let block_out := aes128e s.(ofb_block_out) s.(ofb_feedback) key in
    let ciphertext :=
      for_range 0 (L mod 16) (fun j ciphertext =>
        wr ciphertext (u32 (u32 (L / 16 * 16) + j))
           (u8 (Z.lxor (rd plaintext (u32 (u32 (L / 16 * 16) + j))) (rd block_out j))))
        s.(ofb_ciphertext) in
    mk_ofb ciphertext block_out s.(ofb_feedback) (S s.(ofb_calls))
  else s.
Proof. unfold OFBaes128e, ofb_block_step. cbv zeta. reflexivity. Qed.

(** What [OFBaes128e] leaves behind: the first [L] bytes of the ciphertext
    buffer are the plaintext XOR the keystream and the rest of the buffer
    is as before; the chaining register holds the value after the full
    blocks; [aes128e] was called once per block, whole or partial. *)
Lemma OFBaes128e_spec :
  let r := OFBaes128e ct0 plaintext L iv key in
  length (ofb_ciphertext r) = length ct0 /\
  (forall k, 0 <= k ->
     rd (ofb_ciphertext r) k = if k <? L then ofb_byte key iv plaintext k else rd ct0 k) /\
  ofb_feedback r = chaining key iv (Z.to_nat (L / 16)) /\
  ofb_calls r = Z.to_nat ((L + 15) / 16) /\
  ofb_block_out r = match Z.to_nat ((L + 15) / 16) with
                    | O => replicate 16 0
                    | S n => keystream key iv n
                    end.
Proof.
  cbv zeta. rewrite OFBaes128e_unfold. cbv zeta.
  pose proof ofb_full_blocks_inv as Hinv. unfold ofb_inv in Hinv.
  set (s := for_range _ _ _ _) in *.
  pose proof (length_block_out_inv _ s Hinv) as Hbolen.
  destruct Hinv as (Hfb & Hbo & Hcalls & Hlen & Hct).
  destruct (Z.ltb_spec 0 (L mod 16)) as [Hr|Hr].
  - assert (Hks : aes128e (ofb_block_out s) (ofb_feedback s) key
                  = keystream key iv (Z.to_nat (L / 16))).
    { rewrite aes128e_output by exact Hbolen. now rewrite Hfb, keystream_chaining. }
    rewrite Hks, ofb_inner_loop by (Z.div_mod_to_equations; lia).
    assert (Hq : (L + 15) / 16 = L / 16 + 1) by (Z.div_mod_to_equations; lia).
    rewrite Hq. replace (Z.to_nat (L / 16 + 1)) with (S (Z.to_nat (L / 16)))
      by (Z.div_mod_to_equations; lia).
    simpl. repeat split; trivial.
    + now rewrite length_update_range.
    + intros k Hk. rewrite rd_update_range by (Z.div_mod_to_equations; lia).
      rewrite Hct by lia.
      destruct (Z.leb_spec (L / 16 * 16) k), (Z.ltb_spec k (L / 16 * 16 + L mod 16)),
        (Z.ltb_spec k L), (Z.ltb_spec k (L / 16 * 16)); simpl;
        try (Z.div_mod_to_equations; lia); trivial.
      unfold ofb_byte, keystream_byte.
      replace (L / 16 * 16 + (k - L / 16 * 16)) with k by lia.
      replace (k / 16) with (L / 16) by (Z.div_mod_to_equations; lia).
      replace (k mod 16) with (k - L / 16 * 16) by (Z.div_mod_to_equations; lia).
      reflexivity.
    + now rewrite Hcalls.
  - assert (Hq : (L + 15) / 16 = L / 16) by (Z.div_mod_to_equations; lia).
    rewrite Hq. repeat split; trivial.
    intros k Hk. rewrite Hct by lia.
    destruct (Z.ltb_spec k L), (Z.ltb_spec k (L / 16 * 16)); trivial;
      Z.div_mod_to_equations; lia.
Qed.

End OFB.

(** On a plaintext of bytes the stored byte is the plain XOR. *)
Lemma OFBaes128e_rd (key iv plaintext ct0 : list Z) (L k : Z) :
  0 <= L < 2 ^ 32 -> L <= Z.of_nat (length ct0) -> length iv = 16%nat ->
  Forall is_byte plaintext -> 0 <= k < L ->
  rd (ofb_ciphertext (OFBaes128e ct0 plaintext L iv key)) k =
  Z.lxor (rd plaintext k) (keystream_byte key iv k).
Proof.
  intros HL Hct Hiv Hpt Hk.
  destruct (OFBaes128e_spec key iv plaintext ct0 L HL Hct Hiv) as (_ & H & _).
  rewrite H by lia. destruct (Z.ltb_spec k L); [|lia].
  unfold ofb_byte. apply u8_lxor.
  - now apply rd_is_byte.
  - apply keystream_byte_is_byte.
Qed.

Lemma OFBaes128e_length (key iv plaintext ct0 : list Z) (L : Z) :
  length (ofb_ciphertext (OFBaes128e ct0 plaintext L iv key)) = length ct0.
Proof.
  rewrite OFBaes128e_unfold. cbv zeta.
  set (s0 := mk_ofb ct0 _ _ O).
  assert (H : length (ofb_ciphertext (for_range 0 (L / 16) (ofb_block_step key plaintext) s0))
              = length ct0).
  { destruct (Z_le_gt_dec 0 (L / 16)) as [Hq|Hq].
    - apply (for_range_inv (fun _ s => length (ofb_ciphertext s) = length ct0));
        [exact Hq | reflexivity |].
      intros i s _ Hs. unfold ofb_block_step. simpl.
      apply (for_range_inv (fun _ c => length c = length ct0)); [lia | exact Hs |].
      intros j c _ Hc. now rewrite length_wr.
    - now rewrite for_range_nil by lia. }
  destruct (0 <? L mod 16); [|exact H]. simpl.
  destruct (Z_le_gt_dec 0 (L mod 16)) as [Hr|Hr].
  - apply (for_range_inv (fun _ c => length c = length ct0)); [exact Hr | exact H |].
    intros j c _ Hc. now rewrite length_wr.
  - now rewrite for_range_nil by lia.
Qed.

(** ** [OFBaes128e] on the caller's memory *)

Lemma store_eq (m : Heap.mem) (a v : Z) : Heap.store m a v a = v.
Proof. unfold Heap.store. now rewrite Z.eqb_refl. Qed.

Lemma store_ne (m : Heap.mem) (a v x : Z) : x <> a -> Heap.store m a v x = m x.
Proof. intros H. unfold Heap.store. destruct (Z.eqb_spec x a); [contradiction | reflexivity]. Qed.

Lemma length_load_bytes (m : Heap.mem) (p n : Z) :
  length (Heap.load_bytes m p n) = Z.to_nat n.
Proof. unfold Heap.load_bytes. now rewrite length_fmap, length_seqZ. Qed.

Lemma rd_load_bytes (m : Heap.mem) (p n k : Z) :
  0 <= k < n -> rd (Heap.load_bytes m p n) k = m (p + k).
Proof.
  intros Hk. unfold rd, Heap.load_bytes.
  rewrite list_lookup_fmap, lookup_seqZ_lt by lia. simpl. do 2 f_equal. lia.
Qed.

(** Two memories that agree on a buffer load the same bytes from it. *)
Lemma load_bytes_ext (m m' : Heap.mem) (p n : Z) :
  (forall k, 0 <= k < n -> m' (p + k) = m (p + k)) ->
  Heap.load_bytes m' p n = Heap.load_bytes m p n.
Proof.
  intros H. unfold Heap.load_bytes. apply list_fmap_ext. intros i x Hx.
  apply lookup_seqZ in Hx. apply H. lia.
Qed.

Section HeapOFB.

Variables (m : Heap.mem) (ct pt L ivp keyp : Z).

Hypothesis L_range : 0 <= L < 2 ^ 32.

Local Abbreviation key := (Heap.load_bytes m keyp 16).
Local Abbreviation iv := (Heap.load_bytes m ivp 16).
Local Abbreviation plaintext := (Heap.load_bytes m pt L).

Lemma heap_xor_loop_spec (off n : Z) (block_out : list Z) (m1 : Heap.mem) :
  0 <= off -> 0 <= n -> off + n <= L ->
  let m2 := heap_xor_loop ct pt off n block_out m1 in
  (forall a, ~ (ct + off <= a < ct + off + n) -> m2 a = m1 a) /\
  (readable_plaintext ct pt L -> forall j, 0 <= j < n ->
     m2 (ct + off + j) = u8 (Z.lxor (m1 (pt + off + j)) (rd block_out j))).
Proof.
  intros Hoff Hn HL. cbv zeta. unfold heap_xor_loop.
  apply (for_range_inv (fun i m2 =>
    (forall a, ~ (ct + off <= a < ct + off + i) -> m2 a = m1 a) /\
    (readable_plaintext ct pt L -> forall j, 0 <= j < i ->
       m2 (ct + off + j) = u8 (Z.lxor (m1 (pt + off + j)) (rd block_out j)))));
    [exact Hn | | ].
  - split; [reflexivity | intros _ j Hj; lia].
  - intros i m2 Hi [Hframe Hval]. rewrite u32_index by lia. split.
    + intros a Ha. rewrite store_ne by lia. apply Hframe. lia.
    + intros Hsafe j Hj. destruct (Z.eq_dec j i) as [->|Hne].
      * replace (ct + off + i) with (ct + (off + i)) by lia. rewrite store_eq.
        rewrite Hframe by (unfold readable_plaintext in Hsafe; lia).
        do 3 f_equal. lia.
      * rewrite store_ne by lia. apply Hval; [exact Hsafe | lia].
Qed.

(** The keystream block computed from a state that satisfies the
    invariant. *)
Lemma heap_next_block (i : Z) (s : Heap.ofb_state) :
  0 <= i -> i * 16 <= L -> heap_inv m ct pt L ivp keyp i s -> separate_key ct L keyp -> readable_plaintext ct pt L ->
  aes128e s.(Heap.ofb_block_out) s.(Heap.ofb_feedback)
    (Heap.load_bytes s.(Heap.ofb_memory) keyp 16) = keystream key iv (Z.to_nat i).
Proof.
  intros Hi HiL [Hframe Hval] Hkey Hpt.
  destruct (Hval Hkey Hpt) as (Hfb & Hbo & _).
  rewrite aes128e_output by exact Hbo.
  rewrite Hfb, keystream_chaining. f_equal.
  apply load_bytes_ext. intros k Hk. apply Hframe.
  unfold separate_key in Hkey. lia.
Qed.

Lemma heap_block_step_inv (i : Z) (s : Heap.ofb_state) :
  0 <= i < L / 16 -> heap_inv m ct pt L ivp keyp i s -> heap_inv m ct pt L ivp keyp (i + 1) (heap_block_step ct pt keyp i s).
Proof.
  intros Hi Hinv.
  assert (HL16 : (i + 1) * 16 <= L) by (Z.div_mod_to_equations; lia).
  pose proof (heap_next_block i s ltac:(lia) ltac:(lia) Hinv) as Hks.
  destruct Hinv as [Hframe Hval].
  unfold heap_inv, heap_block_step. cbv zeta. simpl.
  set (bo := aes128e _ _ _) in *.
  destruct (heap_xor_loop_spec (i * 16) 16 bo (Heap.ofb_memory s)
              ltac:(lia) ltac:(lia) ltac:(lia)) as [Hf Hv].
  split.
  - intros a Ha. rewrite Hf by lia. apply Hframe. lia.
  - intros Hkey Hpt. specialize (Hks Hkey Hpt).
    destruct (Hval Hkey Hpt) as (Hfb & Hbo & Hct).
    destruct (keystream_bytes key iv (Z.to_nat i)) as [Hkslen _].
    replace (Z.to_nat (i + 1)) with (S (Z.to_nat i)) by lia.
    change (chaining key iv (S (Z.to_nat i))) with (keystream key iv (Z.to_nat i)).
    split; [|split].
    + rewrite Hks. apply memcpy_all; [|lia]. rewrite Hfb, length_chaining; trivial.
    + rewrite Hks. lia.
    + intros k Hk. destruct (Z_lt_le_dec k (i * 16)) as [Hlt|Hge].
      * rewrite Hf by lia. apply Hct. lia.
      * replace (ct + k) with (ct + i * 16 + (k - i * 16)) by lia.
        rewrite Hv by (trivial; lia).
        rewrite Hframe by (unfold readable_plaintext in Hpt; lia).
        unfold ofb_byte, keystream_byte.
        rewrite rd_load_bytes by lia. rewrite Hks.
        replace (pt + i * 16 + (k - i * 16)) with (pt + k) by lia.
        replace (k / 16) with i by (Z.div_mod_to_equations; lia).
        replace (k mod 16) with (k - i * 16) by (Z.div_mod_to_equations; lia).
        reflexivity.
Qed.

Lemma heap_full_blocks_inv :
  heap_inv m ct pt L ivp keyp (L / 16)
    (for_range 0 (L / 16) (heap_block_step ct pt keyp)
       (Heap.mk_ofb m (replicate 16 0) (memcpy (replicate 16 0) iv 16))).
Proof.
  apply for_range_inv.
  - Z.div_mod_to_equations; lia.
  - split; [reflexivity|]. intros _ _. simpl. split; [|split].
    + apply memcpy_all; [reflexivity|]. now rewrite length_load_bytes.
    + reflexivity.
    + intros k Hk. lia.
  - intros i s Hi. apply heap_block_step_inv. exact Hi.
Qed.

Lemma Heap_OFBaes128e_unfold :
  Heap.OFBaes128e m ct pt L ivp keyp =
  let s := for_range 0 (L / 16) (heap_block_step ct pt keyp)
             (Heap.mk_ofb m (replicate 16 0) (memcpy (replicate 16 0) iv 16)) in
  if 0 <? L mod 16 then
    let block_out :=
      aes128e s.(Heap.ofb_block_out) s.(Heap.ofb_feedback)
        (Heap.load_bytes s.(Heap.ofb_memory) keyp 16) in
    heap_xor_loop ct pt (L / 16 * 16) (L mod 16) block_out s.(Heap.ofb_memory)
  else s.(Heap.ofb_memory).
Proof.
  unfold Heap.OFBaes128e, heap_block_step, heap_xor_loop. cbv zeta. reflexivity.
Qed.

(** What [Heap.OFBaes128e] does to the memory: every byte outside of
    [ciphertext[0..L)] is as before; and if the key is outside of these
    bytes and the plaintext is read before it is overwritten, these bytes
    are the plaintext XOR the keystream, for the key, IV and plaintext that
    the memory held at the call. *)
Lemma Heap_OFBaes128e_spec :
  let m' := Heap.OFBaes128e m ct pt L ivp keyp in
  (forall a, ~ (ct <= a < ct + L) -> m' a = m a) /\
  (separate_key ct L keyp -> readable_plaintext ct pt L ->
     forall k, 0 <= k < L -> m' (ct + k) = ofb_byte key iv plaintext k).
Proof.
  cbv zeta. rewrite Heap_OFBaes128e_unfold. cbv zeta.
  pose proof heap_full_blocks_inv as Hinv.
  set (s := for_range _ _ _ _) in *.
  assert (Hq : 0 <= L / 16 /\ L / 16 * 16 + L mod 16 = L /\ 0 <= L mod 16 < 16)
    by (Z.div_mod_to_equations; lia).
  pose proof (heap_next_block (L / 16) s ltac:(lia) ltac:(lia) Hinv) as Hks.
  destruct Hinv as [Hframe Hval].
  destruct (Z.ltb_spec 0 (L mod 16)) as [Hr|Hr].
  - set (bo := aes128e _ _ _) in *.
    destruct (heap_xor_loop_spec (L / 16 * 16) (L mod 16) bo (Heap.ofb_memory s)
                ltac:(lia) ltac:(lia) ltac:(lia)) as [Hf Hv].
    split.
    + intros a Ha. rewrite Hf by lia. apply Hframe. lia.
    + intros Hkey Hpt k Hk. specialize (Hks Hkey Hpt).
      destruct (Hval Hkey Hpt) as (_ & _ & Hct).
      destruct (Z_lt_le_dec k (L / 16 * 16)) as [Hlt|Hge].
      * rewrite Hf by lia. apply Hct. lia.
      * replace (ct + k) with (ct + L / 16 * 16 + (k - L / 16 * 16)) by lia.
        rewrite Hv by (trivial; lia).
        rewrite Hframe by (unfold readable_plaintext in Hpt; lia).
        unfold ofb_byte, keystream_byte.
        rewrite rd_load_bytes by lia. rewrite Hks.
        replace (pt + L / 16 * 16 + (k - L / 16 * 16)) with (pt + k) by lia.
        replace (k / 16) with (L / 16) by (Z.div_mod_to_equations; lia).
        replace (k mod 16) with (k - L / 16 * 16) by (Z.div_mod_to_equations; lia).
        reflexivity.
  - split.
    + intros a Ha. apply Hframe. lia.
    + intros Hkey Hpt k Hk. destruct (Hval Hkey Hpt) as (_ & _ & Hct).
      apply Hct. lia.
Qed.

End HeapOFB.

(** On buffers laid out in this way, [Heap.OFBaes128e] leaves in the
    ciphertext buffer what [OFBaes128e] computes from the contents of the
    four buffers. *)
Lemma Heap_OFBaes128e_refines (m : Heap.mem) (ct pt L ivp keyp : Z) :
  0 <= L < 2 ^ 32 ->
  separate_key ct L keyp -> readable_plaintext ct pt L ->
  Heap.load_bytes (Heap.OFBaes128e m ct pt L ivp keyp) ct L =
  ofb_ciphertext
    (OFBaes128e (Heap.load_bytes m ct L) (Heap.load_bytes m pt L) L
       (Heap.load_bytes m ivp 16) (Heap.load_bytes m keyp 16)).
Proof.
  intros HL Hkey Hpt.
  destruct (Heap_OFBaes128e_spec m ct pt L ivp keyp HL) as [_ Hval].
  destruct (OFBaes128e_spec (Heap.load_bytes m keyp 16) (Heap.load_bytes m ivp 16)
              (Heap.load_bytes m pt L) (Heap.load_bytes m ct L) L HL)
    as (Hlen & Hrd & _).
  { rewrite length_load_bytes. lia. }
  { now rewrite length_load_bytes. }
  apply rd_ext.
  - now rewrite Hlen, !length_load_bytes.
  - intros k Hk. rewrite length_load_bytes in Hk.
    rewrite rd_load_bytes by lia. rewrite Hrd by lia.
    destruct (Z.ltb_spec k L); [|lia]. apply Hval; trivial. lia.
Qed.

(** * The properties stated by the specification *)

(** ** Test data and the keystream prefix *)

Lemma sample33_bytes : bytes 33 sample33.
Proof. apply bytes_dec. vm_compute. reflexivity. Qed.

Lemma length_keystream_prefix (key iv : list Z) (L : Z) :
  length (keystream_prefix key iv L) = Z.to_nat L.
Proof. unfold keystream_prefix. now rewrite length_fmap, length_seqZ. Qed.

Lemma rd_keystream_prefix (key iv : list Z) (L k : Z) :
  0 <= k < L -> rd (keystream_prefix key iv L) k = keystream_byte key iv k.
Proof.
  intros Hk. unfold rd, keystream_prefix.
  rewrite list_lookup_fmap, lookup_seqZ_lt by lia. simpl. f_equal. lia.
Qed.

(** The embedding of [OFBaes128e] on NIST SP 800-38A, F.4.1
    (OFB-AES128.Encrypt, four blocks). *)
Example ofb_sp800_38a :
  ofb_ciphertext
    (OFBaes128e (replicate 64 0) sp800_38a_plaintext 64 sp800_38a_iv fips197_B_key) =
  sp800_38a_ofb_ciphertext.
Proof. vm_compute. reflexivity. Qed.

(** ** C1: OFB is its own inverse *)

(** C1: for every key, 16-byte IV and plaintext of [L] bytes, running
    [OFBaes128e] on the ciphertext with the same key and IV gives back the
    plaintext. *)
Theorem ofb_self_inverse (key iv plaintext ct0 ct1 : list Z) (L : Z) :
  0 <= L < 2 ^ 32 ->
  length iv = 16%nat ->
  bytes L plaintext ->
  Z.of_nat (length ct0) = L ->
  Z.of_nat (length ct1) = L ->
  let c := ofb_ciphertext (OFBaes128e ct0 plaintext L iv key) in
  ofb_ciphertext (OFBaes128e ct1 c L iv key) = plaintext.
Proof.
  intros HL Hiv [Hptlen Hpt] Hct0 Hct1 c.
  apply rd_ext.
  - rewrite OFBaes128e_length. lia.
  - intros k Hk. rewrite OFBaes128e_length in Hk.
    destruct (OFBaes128e_spec key iv c ct1 L HL ltac:(lia) Hiv) as (_ & H & _).
    rewrite H by lia. destruct (Z.ltb_spec k L); [|lia].
    unfold ofb_byte, c. rewrite OFBaes128e_rd by (trivial; lia).
    rewrite lxor_cancel_r. apply u8_id. now apply rd_is_byte.
Qed.

Lemma ofb_self_inverse_witness :
  0 <= 33 < 2 ^ 32 /\
  length zeros16 = 16%nat /\
  bytes 33 sample33 /\
  Z.of_nat (length (replicate 33 0)) = 33 /\
  ofb_ciphertext
    (OFBaes128e (replicate 33 0)
       (ofb_ciphertext (OFBaes128e (replicate 33 0) sample33 33 zeros16 fips197_C1_key))
       33 zeros16 fips197_C1_key) = sample33.
Proof.
  assert (H1 : 0 <= 33 < 2 ^ 32) by lia.
  assert (H2 : length zeros16 = 16%nat) by reflexivity.
  assert (H4 : Z.of_nat (length (replicate 33 0)) = 33) by reflexivity.
  split; [exact H1|]. split; [exact H2|]. split; [exact sample33_bytes|].
  split; [exact H4|].
  exact (ofb_self_inverse fips197_C1_key zeros16 sample33 (replicate 33 0)
           (replicate 33 0) 33 H1 H2 sample33_bytes H4 H4).
Defined.

(** ** C2: known answers *)

(** C2: [aes128e] reproduces the FIPS-197 example vectors (Appendix B and
    Appendix C.1) byte for byte; the all-zero block under the all-zero key
    encrypts to 66e94bd4ef8a2c3b884cfa59ca342b2e, and with an all-zero IV
    the OFB ciphertext of 16 zero bytes is that same block (after one call
    of [aes128e]). *)
Theorem known_answers :
  aes128e zeros16 fips197_B_input fips197_B_key = fips197_B_output /\
  aes128e zeros16 fips197_C1_input fips197_C1_key = fips197_C1_output /\
  aes128e zeros16 zeros16 zeros16 = aes128_zero_block /\
  OFBaes128e zeros16 zeros16 16 zeros16 zeros16 =
    mk_ofb aes128_zero_block aes128_zero_block aes128_zero_block 1.
Proof. repeat split; vm_compute; reflexivity. Qed.

(** ** C3: the rounds of the block cipher *)

(** C3: for every 16-byte input block and 16-byte key, [aes128e] leaves in
    a 16-byte output buffer the block obtained by XOR with round-key block
    0, then SubBytes, ShiftRows, MixColumns and XOR with round-key block
    [round] for the rounds 1..9 in this order, then SubBytes, ShiftRows and
    XOR with round-key block 10, with no MixColumns in this final round. *)
Theorem aes128e_rounds (output input key : list Z) :
  bytes 16 input -> bytes 16 key -> length output = 16%nat ->
  aes128e output input key = cipher input key.
Proof.
  intros Hin Hkey Hout.
  rewrite aes128e_memcpy.
  destruct (final_state_bytes input key) as [Hfl _].
  rewrite memcpy_all by lia.
  rewrite final_state_unfold, cipher_unfold.
  rewrite (memcpy_all _ input) by (destruct Hin; trivial).
  rewrite (AddRoundKey_round_key 0) by (trivial; lia).
  assert (H0 : bytes 16 (xor_bytes input (round_key key 0))).
  { apply xor_bytes_bytes; [exact Hin | apply round_key_bytes; trivial; lia]. }
  rewrite for_range_foldl by lia.
  destruct (foldl_ext_inv (bytes 16)
    (fun s i => AddRoundKey i (MixColumns (ShiftRows (SubBytes s)))
                  (KeyExpansion (replicate 176 0) key))
    (cipher_round key) (seqZ 1 (10 - 1)) _ H0) as [E H9].
  { intros s r Hr Hs. apply elem_of_seqZ in Hr. apply round_refines; trivial. lia. }
  rewrite E. apply final_round_refines; trivial.
Qed.

Lemma aes128e_rounds_witness :
  bytes 16 fips197_C1_input /\ bytes 16 fips197_C1_key /\
  length zeros16 = 16%nat /\
  aes128e zeros16 fips197_C1_input fips197_C1_key =
    cipher fips197_C1_input fips197_C1_key.
Proof.
  assert (H1 : bytes 16 fips197_C1_input) by (apply bytes_dec; vm_compute; reflexivity).
  assert (H2 : bytes 16 fips197_C1_key) by (apply bytes_dec; vm_compute; reflexivity).
  assert (H3 : length zeros16 = 16%nat) by reflexivity.
  split; [exact H1|]. split; [exact H2|]. split; [exact H3|].
  exact (aes128e_rounds zeros16 fips197_C1_input fips197_C1_key H1 H2 H3).
Defined.

(** ** C4: the key schedule *)

(** C4: for every 16-byte key the key schedule fills the 176 bytes of
    [RoundKey], whatever they held: 11 round-key blocks of 16 bytes, block
    [k] made of the words [4k .. 4k+3]; block 0 is the key; and for
    [i = 4 .. 43], word [i] is word [i-4] XOR word [i-1], where word [i-1]
    is first rotated left by one byte, substituted through the S-box and
    XORed with [Rcon[i/4]] on its first byte exactly when [i] is a multiple
    of 4. *)
Theorem key_schedule (key RoundKey0 : list Z) :
  bytes 16 key -> length RoundKey0 = 176%nat ->
  let RoundKey := KeyExpansion RoundKey0 key in
  bytes 176 RoundKey /\
  round_key_block RoundKey 0 = key /\
  (forall k, 0 <= k <= 10 ->
     bytes 16 (round_key_block RoundKey k) /\
     round_key_block RoundKey k =
       word RoundKey (4 * k) ++ word RoundKey (4 * k + 1) ++
       word RoundKey (4 * k + 2) ++ word RoundKey (4 * k + 3)) /\
  (forall i, 4 <= i < 44 ->
     word RoundKey i = next_word i (word RoundKey (i - 4)) (word RoundKey (i - 1))).
Proof.
  intros Hkey Hlen RoundKey.
  pose proof (KeyExpansion_bytes key RoundKey0 Hkey Hlen) as [HRKlen HRKb].
  destruct (KeyExpansion_inv key RoundKey0 Hkey Hlen) as (Hl & Hk & _ & Hw).
  fold RoundKey in HRKlen, HRKb, Hl, Hk, Hw.
  assert (Hblen : forall k, 0 <= k <= 10 -> length (round_key_block RoundKey k) = 16%nat).
  { intros k Hk'. unfold round_key_block. rewrite length_take, length_drop. lia. }
  split; [split; assumption|]. split; [|split].
  - destruct Hkey as [Hkl _]. apply rd_ext.
    + rewrite Hblen by lia. lia.
    + intros i Hi. rewrite Hblen in Hi by lia.
      rewrite rd_round_key_block by lia. apply Hk. lia.
  - intros k Hk'. split.
    + split; [rewrite Hblen by lia; lia|].
      unfold round_key_block. apply Forall_take, Forall_drop, HRKb.
    + apply rd_ext.
      * rewrite Hblen by lia. reflexivity.
      * intros i Hi. rewrite Hblen in Hi by lia.
        rewrite rd_round_key_block by lia. unfold word.
        assert (Hc : i = 0 \/ i = 1 \/ i = 2 \/ i = 3 \/ i = 4 \/ i = 5 \/ i = 6 \/ i = 7 \/
                     i = 8 \/ i = 9 \/ i = 10 \/ i = 11 \/ i = 12 \/ i = 13 \/ i = 14 \/
                     i = 15) by lia.
        simpl app.
        repeat (destruct Hc as [-> | Hc]); [..|subst i]; rd_explicit; f_equal; lia.
  - exact Hw.
Qed.

Lemma key_schedule_witness :
  bytes 16 fips197_C1_key /\ length (replicate 176 0) = 176%nat /\
  round_key_block (KeyExpansion (replicate 176 0) fips197_C1_key) 0 = fips197_C1_key /\
  word (KeyExpansion (replicate 176 0) fips197_C1_key) 4 =
    next_word 4 (word (KeyExpansion (replicate 176 0) fips197_C1_key) 0)
                (word (KeyExpansion (replicate 176 0) fips197_C1_key) 3).
Proof.
  assert (H1 : bytes 16 fips197_C1_key) by (apply bytes_dec; vm_compute; reflexivity).
  assert (H2 : length (replicate 176 0) = 176%nat) by reflexivity.
  split; [exact H1|]. split; [exact H2|].
  destruct (key_schedule fips197_C1_key (replicate 176 0) H1 H2) as (_ & Hk & _ & Hw).
  split; [exact Hk | apply (Hw 4); lia].
Defined.

(** ** C5: the full blocks *)

(** C5: for every full block index [i], ciphertext block [i] is plaintext
    block [i] XOR keystream block [i], where keystream block 0 is the
    encryption of the IV and keystream block [i+1] the encryption of
    keystream block [i]; after the full blocks the chaining register holds
    the latest keystream block. *)
Theorem ofb_full_blocks (key iv plaintext ct0 : list Z) (L i : Z) :
  0 <= L < 2 ^ 32 ->
  length iv = 16%nat ->
  bytes L plaintext ->
  Z.of_nat (length ct0) = L ->
  0 <= i < L / 16 ->
  let r := OFBaes128e ct0 plaintext L iv key in
  take 16 (drop (Z.to_nat (16 * i)) (ofb_ciphertext r)) =
    xor_bytes (take 16 (drop (Z.to_nat (16 * i)) plaintext))
              (keystream key iv (Z.to_nat i)) /\
  ofb_feedback r = keystream key iv (Z.to_nat (L / 16 - 1)).
Proof.
  intros HL Hiv [Hptlen Hpt] Hct Hi r.
  assert (HL16 : 16 * i + 16 <= L) by (Z.div_mod_to_equations; lia).
  destruct (OFBaes128e_spec key iv plaintext ct0 L HL ltac:(lia) Hiv)
    as (Hlen & _ & Hfb & _).
  fold r in Hlen, Hfb.
  destruct (keystream_bytes key iv (Z.to_nat i)) as [Hks _].
  split.
  - apply rd_ext.
    + rewrite length_xor_bytes, !length_take, !length_drop. lia.
    + intros k Hk. rewrite length_take, length_drop in Hk.
      rewrite rd_take, rd_drop by lia.
      rewrite rd_xor_bytes by (rewrite ?length_take, ?length_drop; lia).
      rewrite rd_take, rd_drop by lia.
      unfold r. rewrite OFBaes128e_rd by (trivial; lia).
      unfold keystream_byte. do 2 f_equal.
      * f_equal. Z.div_mod_to_equations; lia.
      * Z.div_mod_to_equations; lia.
  - rewrite Hfb. replace (Z.to_nat (L / 16)) with (S (Z.to_nat (L / 16 - 1))) by lia.
    reflexivity.
Qed.

Lemma ofb_full_blocks_witness :
  0 <= 33 < 2 ^ 32 /\
  length zeros16 = 16%nat /\
  bytes 33 sample33 /\
  Z.of_nat (length (replicate 33 0)) = 33 /\
  0 <= 1 < 33 / 16 /\
  take 16 (drop (Z.to_nat (16 * 1))
    (ofb_ciphertext (OFBaes128e (replicate 33 0) sample33 33 zeros16 fips197_C1_key))) =
    xor_bytes (take 16 (drop (Z.to_nat (16 * 1)) sample33))
              (keystream fips197_C1_key zeros16 (Z.to_nat 1)) /\
  ofb_feedback (OFBaes128e (replicate 33 0) sample33 33 zeros16 fips197_C1_key) =
    keystream fips197_C1_key zeros16 (Z.to_nat (33 / 16 - 1)).
Proof.
  assert (H1 : 0 <= 33 < 2 ^ 32) by lia.
  assert (H2 : length zeros16 = 16%nat) by reflexivity.
  assert (H4 : Z.of_nat (length (replicate 33 0)) = 33) by reflexivity.
  assert (H5 : 0 <= 1 < 33 / 16) by (vm_compute; split; [discriminate | reflexivity]).
  split; [exact H1|]. split; [exact H2|]. split; [exact sample33_bytes|].
  split; [exact H4|]. split; [exact H5|].
  exact (ofb_full_blocks fips197_C1_key zeros16 sample33 (replicate 33 0) 33 1
           H1 H2 sample33_bytes H4 H5).
Defined.

(** ** C6: the partial final block *)

(** C6: when [r = L mod 16 > 0], the last [r] ciphertext bytes are the last
    [r] plaintext bytes XOR the first [r] bytes of one more keystream
    block, the encryption of the chaining register; the other [16 - r]
    bytes of that block are written nowhere (the output has [L] bytes), and
    the chaining register keeps the value it had after the full blocks:
    [aes128e] is called once more, [block_out] holds the new block and
    [feedback] does not. *)
Theorem ofb_partial_block (key iv plaintext ct0 : list Z) (L : Z) :
  0 <= L < 2 ^ 32 ->
  length iv = 16%nat ->
  bytes L plaintext ->
  Z.of_nat (length ct0) = L ->
  0 < L mod 16 ->
  let q := Z.to_nat (L / 16) in
  let r := OFBaes128e ct0 plaintext L iv key in
  drop (16 * q) (ofb_ciphertext r) =
    xor_bytes (drop (16 * q) plaintext)
              (take (Z.to_nat (L mod 16)) (encrypt_block (ofb_feedback r) key)) /\
  Z.of_nat (length (ofb_ciphertext r)) = L /\
  ofb_feedback r = chaining key iv q /\
  ofb_block_out r = encrypt_block (chaining key iv q) key /\
  ofb_calls r = S q.
Proof.
  intros HL Hiv [Hptlen Hpt] Hct Hr q r.
  destruct (OFBaes128e_spec key iv plaintext ct0 L HL ltac:(lia) Hiv)
    as (Hlen & _ & Hfb & Hcalls & Hbo).
  fold r in Hlen, Hfb, Hcalls, Hbo. fold q in Hfb.
  assert (Hq0 : 0 <= L / 16) by (apply Z.div_pos; lia).
  assert (Hq : Z.to_nat ((L + 15) / 16) = S q).
  { replace ((L + 15) / 16) with (L / 16 + 1) by (Z.div_mod_to_equations; lia).
    unfold q. lia. }
  rewrite Hq in Hcalls, Hbo. rewrite keystream_chaining in Hbo.
  destruct (encrypt_block_bytes (chaining key iv q) key) as [Hks _].
  assert (HqL : Z.of_nat (16 * q) + L mod 16 = L).
  { unfold q. rewrite Nat2Z.inj_mul, Z2Nat.id by exact Hq0.
    simpl Z.of_nat. pose proof (Z.div_mod L 16). lia. }
  pose proof (Z.mod_pos_bound L 16 ltac:(lia)) as Hr16.
  repeat split; trivial; [|lia].
  rewrite Hfb. apply rd_ext.
  - rewrite length_xor_bytes, length_take, !length_drop. lia.
  - intros k Hk. rewrite length_drop in Hk.
    rewrite rd_drop by lia.
    rewrite rd_xor_bytes by (rewrite ?length_take, ?length_drop; lia).
    rewrite rd_take, rd_drop by lia.
    unfold r. rewrite OFBaes128e_rd by (trivial; lia).
    unfold keystream_byte. rewrite keystream_chaining. do 2 f_equal.
    + do 2 f_equal. unfold q. f_equal.
      pose proof (Z.mod_pos_bound L 16). Z.div_mod_to_equations; lia.
    + pose proof (Z.mod_pos_bound L 16). Z.div_mod_to_equations; lia.
Qed.

Lemma ofb_partial_block_witness :
  0 <= 33 < 2 ^ 32 /\
  length zeros16 = 16%nat /\
  bytes 33 sample33 /\
  Z.of_nat (length (replicate 33 0)) = 33 /\
  0 < 33 mod 16 /\
  ofb_calls (OFBaes128e (replicate 33 0) sample33 33 zeros16 fips197_C1_key) = 3%nat /\
  ofb_feedback (OFBaes128e (replicate 33 0) sample33 33 zeros16 fips197_C1_key) =
    chaining fips197_C1_key zeros16 2.
Proof.
  assert (H1 : 0 <= 33 < 2 ^ 32) by lia.
  assert (H2 : length zeros16 = 16%nat) by reflexivity.
  assert (H4 : Z.of_nat (length (replicate 33 0)) = 33) by reflexivity.
  assert (H5 : 0 < 33 mod 16) by reflexivity.
  split; [exact H1|]. split; [exact H2|]. split; [exact sample33_bytes|].
  split; [exact H4|]. split; [exact H5|].
  destruct (ofb_partial_block fips197_C1_key zeros16 sample33 (replicate 33 0) 33
              H1 H2 sample33_bytes H4 H5) as (_ & _ & Hfb & _ & Hcalls).
  split; [exact Hcalls | exact Hfb].
Defined.

(** ** C7: length of the output *)

(** The first [L] bytes of the ciphertext buffer on return: each one has
    been written, with the plaintext byte XOR the keystream byte. *)
Lemma OFBaes128e_take (key iv plaintext ct0 : list Z) (L : Z) :
  0 <= L < 2 ^ 32 -> length iv = 16%nat -> L <= Z.of_nat (length ct0) ->
  take (Z.to_nat L) (ofb_ciphertext (OFBaes128e ct0 plaintext L iv key)) =
  ofb_byte key iv plaintext <$> seqZ 0 L.
Proof.
  intros HL Hiv Hct.
  destruct (OFBaes128e_spec key iv plaintext ct0 L HL Hct Hiv) as (Hlen & Hrd & _).
  apply rd_ext.
  - rewrite length_take, Hlen, length_fmap, length_seqZ. lia.
  - intros i Hi. rewrite length_take, Hlen in Hi.
    rewrite rd_take, Hrd by lia.
    destruct (Z.ltb_spec i L) as [_|Hge]; [|lia].
    rewrite rd_fmap by (rewrite length_seqZ; lia).
    f_equal. unfold rd. rewrite lookup_seqZ_lt by lia. simpl. lia.
Qed.

(** C7: [OFBaes128e] produces exactly [L] bytes of output.  The first [L]
    bytes of the ciphertext buffer are all written: they are the [L] bytes
    [ofb_byte 0 .. ofb_byte (L - 1)], each a byte, and they do not depend
    on what the buffer held before.  Nothing more is written: the buffer
    keeps its length and its bytes from index [L] on, so an output buffer
    of [L] bytes holds the [L] bytes produced and nothing else.  For
    [L = 0] nothing is written, the output is empty and [aes128e] is not
    called. *)
Theorem ofb_output_length (key iv plaintext ct0 : list Z) (L : Z) :
  0 <= L < 2 ^ 32 ->
  length iv = 16%nat ->
  L <= Z.of_nat (length ct0) ->
  let r := OFBaes128e ct0 plaintext L iv key in
  let out := take (Z.to_nat L) (ofb_ciphertext r) in
  Z.of_nat (length out) = L /\
  out = ofb_byte key iv plaintext <$> seqZ 0 L /\
  Forall is_byte out /\
  (forall ct1, L <= Z.of_nat (length ct1) ->
     take (Z.to_nat L) (ofb_ciphertext (OFBaes128e ct1 plaintext L iv key)) = out) /\
  length (ofb_ciphertext r) = length ct0 /\
  drop (Z.to_nat L) (ofb_ciphertext r) = drop (Z.to_nat L) ct0 /\
  (Z.of_nat (length ct0) = L ->
     Z.of_nat (length (ofb_ciphertext r)) = L /\
     ofb_ciphertext r = ofb_byte key iv plaintext <$> seqZ 0 L) /\
  (L = 0 -> ofb_ciphertext r = ct0 /\ ofb_calls r = O) /\
  (Z.of_nat (length ct0) = L -> L = 0 -> ofb_ciphertext r = []).
Proof.
  intros HL Hiv Hct r out.
  destruct (OFBaes128e_spec key iv plaintext ct0 L HL Hct Hiv)
    as (Hlen & Hrd & _ & Hcalls & _).
  fold r in Hlen, Hrd, Hcalls.
  pose proof (OFBaes128e_take key iv plaintext ct0 L HL Hiv Hct) as Hout.
  fold r in Hout. fold out in Hout.
  split; [|split; [exact Hout|split; [|split; [|split; [exact Hlen|split; [|split; [|split]]]]]]].
  - unfold out. rewrite length_take, Hlen. lia.
  - rewrite Hout. apply Forall_fmap, Forall_forall. intros k _. apply u8_is_byte.
  - intros ct1 H1. rewrite Hout. now apply OFBaes128e_take.
  - apply rd_ext.
    + now rewrite !length_drop, Hlen.
    + intros i Hi. rewrite !rd_drop by lia. rewrite Hrd by lia.
      destruct (Z.ltb_spec (Z.of_nat (Z.to_nat L) + i) L); trivial; lia.
  - intros H. split; [now rewrite Hlen|].
    rewrite <- Hout. unfold out. symmetry. apply take_ge. lia.
  - intros H0. subst L. split.
    + apply rd_ext; [exact Hlen|]. intros i Hi. rewrite Hrd by lia.
      destruct (Z.ltb_spec i 0); trivial; lia.
    + rewrite Hcalls. reflexivity.
  - intros H H0. apply nil_length_inv. lia.
Qed.

Lemma ofb_output_length_witness :
  0 <= 33 < 2 ^ 32 /\
  length zeros16 = 16%nat /\
  33 <= Z.of_nat (length (replicate 33 0)) /\
  Z.of_nat (length (ofb_ciphertext
                      (OFBaes128e (replicate 33 0) sample33 33 zeros16 fips197_C1_key))) = 33 /\
  take (Z.to_nat 33)
    (ofb_ciphertext (OFBaes128e (replicate 40 255) sample33 33 zeros16 fips197_C1_key)) =
  take (Z.to_nat 33)
    (ofb_ciphertext (OFBaes128e (replicate 33 0) sample33 33 zeros16 fips197_C1_key)) /\
  ofb_ciphertext (OFBaes128e [] [] 0 zeros16 zeros16) = [] /\
  ofb_calls (OFBaes128e [] [] 0 zeros16 zeros16) = O.
Proof.
  assert (H1 : 0 <= 33 < 2 ^ 32) by lia.
  assert (H2 : length zeros16 = 16%nat) by reflexivity.
  assert (H3 : 33 <= Z.of_nat (length (replicate 33 0))) by (vm_compute; discriminate).
  assert (H4 : 33 <= Z.of_nat (length (replicate 40 255))) by (vm_compute; discriminate).
  assert (H5 : 0 <= 0 < 2 ^ 32) by lia.
  assert (H6 : 0 <= Z.of_nat (length (@nil Z))) by (simpl; lia).
  destruct (ofb_output_length fips197_C1_key zeros16 sample33 (replicate 33 0) 33 H1 H2 H3)
    as (_ & _ & _ & Hany & _ & _ & Hexact & _).
  destruct (ofb_output_length zeros16 zeros16 [] [] 0 H5 H2 H6)
    as (_ & _ & _ & _ & _ & _ & _ & Hzero & _).
  split; [exact H1|]. split; [exact H2|]. split; [exact H3|].
  split; [exact (proj1 (Hexact eq_refl))|].
  split; [exact (Hany (replicate 40 255) H4)|].
  exact (Hzero eq_refl).
Defined.

(** ** C8: doubling in GF(2^8) *)

(** C8: on every byte [x], [xtime] is [(x << 1) XOR 0x1B] when the high bit
    of [x] is set and [x << 1] otherwise, masked to a byte; this is the
    multiplication by [x] in GF(2^8) modulo the AES polynomial, and the
    result is a byte. *)
Theorem xtime_doubling (x : Z) :
  is_byte x ->
  xtime x = Z.land (if Z.testbit x 7 then Z.lxor (Z.shiftl x 1) 0x1B
                    else Z.shiftl x 1) 255 /\
  xtime x = gf_mulx x /\
  is_byte (xtime x).
Proof.
  intros Hx.
  pose proof (byte_cases (fun x =>
    (xtime x =? Z.land (if Z.testbit x 7 then Z.lxor (Z.shiftl x 1) 0x1B
                        else Z.shiftl x 1) 255)
    && (xtime x =? gf_mulx x)) ltac:(vm_compute; reflexivity) x Hx) as H.
  simpl in H. apply andb_true_iff in H. destruct H as [H1 H2].
  apply Z.eqb_eq in H1, H2. split; [exact H1|]. split; [exact H2|].
  apply u8_is_byte.
Qed.

Lemma xtime_doubling_witness :
  is_byte 0x80 /\ xtime 0x80 = 0x1B /\ xtime 0x80 = gf_mulx 0x80.
Proof.
  assert (H : is_byte 0x80) by (unfold is_byte; lia).
  split; [exact H|].
  destruct (xtime_doubling 0x80 H) as (H1 & H2 & _).
  split; [rewrite H1; reflexivity | exact H2].
Defined.

(** ** C9: what the call changes in the caller's memory *)

(** Against C9 as stated: after a call in place the 16 bytes of the
    plaintext buffer are no longer the plaintext, and after a call whose
    ciphertext pointer is the IV pointer the IV buffer holds the
    ciphertext. *)
Lemma ofb_overwrites_overlapping_buffers :
  Heap.load_bytes zero_memory 0 16 = zeros16 /\
  Heap.load_bytes in_place_call 0 16 = aes128_zero_block /\
  Heap.load_bytes in_place_call 0 16 <> Heap.load_bytes zero_memory 0 16 /\
  Heap.load_bytes over_iv_call 16 16 <> Heap.load_bytes zero_memory 16 16.
Proof.
  assert (H0 : Heap.load_bytes zero_memory 0 16 = zeros16) by reflexivity.
  assert (H1 : Heap.load_bytes in_place_call 0 16 = aes128_zero_block)
    by (vm_compute; reflexivity).
  assert (H2 : Heap.load_bytes over_iv_call 16 16 = aes128_zero_block)
    by (vm_compute; reflexivity).
  assert (H3 : Heap.load_bytes zero_memory 16 16 = zeros16) by reflexivity.
  split; [exact H0|]. split; [exact H1|].
  rewrite H0, H1, H2, H3. split; discriminate.
Qed.

(** C9, amended: [OFBaes128e] writes the [L] bytes of the ciphertext buffer
    and nothing else.  Every byte of the memory outside of
    [ciphertext[0..L)] is the same before and after the call; so the IV,
    the plaintext and the key are unchanged whenever their buffer lies
    outside of these bytes. *)
Theorem ofb_writes_only_ciphertext (m : Heap.mem) (ct pt L iv key : Z) :
  0 <= L < 2 ^ 32 ->
  let m' := Heap.OFBaes128e m ct pt L iv key in
  (forall a, ~ (ct <= a < ct + L) -> m' a = m a) /\
  (iv + 16 <= ct \/ ct + L <= iv ->
     Heap.load_bytes m' iv 16 = Heap.load_bytes m iv 16) /\
  (pt + L <= ct \/ ct + L <= pt ->
     Heap.load_bytes m' pt L = Heap.load_bytes m pt L) /\
  (key + 16 <= ct \/ ct + L <= key ->
     Heap.load_bytes m' key 16 = Heap.load_bytes m key 16).
Proof.
  intros HL m'.
  destruct (Heap_OFBaes128e_spec m ct pt L iv key HL) as [Hframe _].
  fold m' in Hframe.
  split; [exact Hframe|].
  repeat split; intros H; apply load_bytes_ext; intros k Hk; apply Hframe; lia.
Qed.

Lemma ofb_writes_only_ciphertext_witness :
  0 <= 33 < 2 ^ 32 /\
  let m' := Heap.OFBaes128e sample_memory 100 200 33 300 400 in
  Heap.load_bytes m' 300 16 = Heap.load_bytes sample_memory 300 16 /\
  Heap.load_bytes m' 200 33 = Heap.load_bytes sample_memory 200 33 /\
  Heap.load_bytes m' 400 16 = Heap.load_bytes sample_memory 400 16.
Proof.
  assert (H1 : 0 <= 33 < 2 ^ 32) by lia.
  split; [exact H1|].
  destruct (ofb_writes_only_ciphertext sample_memory 100 200 33 300 400 H1)
    as (_ & Hiv & Hpt & Hkey).
  split; [apply Hiv; lia|]. split; [apply Hpt; lia | apply Hkey; lia].
Defined.

(** ** C10: the keystream does not depend on the plaintext *)

(** C10: the XOR of the ciphertext with its plaintext is the keystream
    prefix, a function of key, IV and [L] alone, so it is the same for any
    two plaintexts of [L] bytes; and replacing plaintext byte [j] by [b]
    replaces ciphertext byte [j] and leaves every other byte of the output
    as it was. *)
Theorem ofb_keystream_independent (key iv p1 p2 c1 c2 : list Z) (L : Z) :
  0 <= L < 2 ^ 32 ->
  length iv = 16%nat ->
  bytes L p1 -> bytes L p2 ->
  Z.of_nat (length c1) = L -> Z.of_nat (length c2) = L ->
  let o1 := ofb_ciphertext (OFBaes128e c1 p1 L iv key) in
  let o2 := ofb_ciphertext (OFBaes128e c2 p2 L iv key) in
  xor_bytes o1 p1 = keystream_prefix key iv L /\
  xor_bytes o1 p1 = xor_bytes o2 p2 /\
  forall j b, 0 <= j < L -> is_byte b ->
    ofb_ciphertext (OFBaes128e c1 (wr p1 j b) L iv key) =
    wr o1 j (Z.lxor b (keystream_byte key iv j)).
Proof.
  intros HL Hiv [Hp1len Hp1] [Hp2len Hp2] Hc1 Hc2 o1 o2.
  assert (Hks : forall c p, bytes L p -> Z.of_nat (length c) = L ->
    xor_bytes (ofb_ciphertext (OFBaes128e c p L iv key)) p = keystream_prefix key iv L).
  { intros c p [Hplen Hp] Hc. apply rd_ext.
    - rewrite length_xor_bytes, OFBaes128e_length, length_keystream_prefix. lia.
    - intros k Hk. rewrite length_xor_bytes, OFBaes128e_length in Hk.
      rewrite rd_xor_bytes by (rewrite ?OFBaes128e_length; lia).
      rewrite OFBaes128e_rd by (trivial; lia).
      rewrite rd_keystream_prefix by lia.
      now rewrite (Z.lxor_comm (rd p k)), lxor_cancel_r. }
  split; [|split].
  - apply Hks; [split|]; assumption.
  - unfold o1, o2. rewrite !Hks; trivial; split; assumption.
  - intros j b Hj Hb. unfold o1. apply rd_ext.
    + now rewrite length_wr, !OFBaes128e_length.
    + intros k Hk. rewrite OFBaes128e_length in Hk.
      rewrite OFBaes128e_rd by (trivial; try lia; now apply wr_is_byte).
      destruct (Z.eq_dec j k) as [->|Hne].
      * rewrite !rd_wr_eq; trivial; try lia. rewrite OFBaes128e_length. lia.
      * rewrite !rd_wr_ne by lia. now rewrite OFBaes128e_rd by (trivial; lia).
Qed.

Lemma ofb_keystream_independent_witness :
  0 <= 33 < 2 ^ 32 /\
  length zeros16 = 16%nat /\
  bytes 33 sample33 /\ bytes 33 (replicate 33 0) /\
  Z.of_nat (length (replicate 33 0)) = 33 /\
  xor_bytes (ofb_ciphertext (OFBaes128e (replicate 33 0) sample33 33 zeros16 fips197_C1_key))
            sample33 =
  xor_bytes (ofb_ciphertext (OFBaes128e (replicate 33 0) (replicate 33 0) 33 zeros16
                               fips197_C1_key))
            (replicate 33 0).
Proof.
  assert (H1 : 0 <= 33 < 2 ^ 32) by lia.
  assert (H2 : length zeros16 = 16%nat) by reflexivity.
  assert (H3 : bytes 33 (replicate 33 0)) by (apply bytes_dec; vm_compute; reflexivity).
  assert (H4 : Z.of_nat (length (replicate 33 0)) = 33) by reflexivity.
  split; [exact H1|]. split; [exact H2|]. split; [exact sample33_bytes|].
  split; [exact H3|]. split; [exact H4|].
  exact (proj1 (proj2 (ofb_keystream_independent fips197_C1_key zeros16 sample33
                         (replicate 33 0) (replicate 33 0) (replicate 33 0) 33
                         H1 H2 sample33_bytes H3 H4 H4))).
Defined.

(** * Further properties of the code *)

(** ** Tactics *)

Ltac byte_goal :=
  repeat first [ assumption | apply lxor_is_byte | apply xtime_is_byte ].

(** Equalities of XOR expressions, bit by bit. *)
Ltac xor_ring :=
  apply Z.bits_inj'; intros ?n _; rewrite !Z.lxor_spec;
  repeat match goal with
         | |- context [Z.testbit ?x ?n] =>
             let b := fresh "b" in generalize (Z.testbit x n); intros b
         end;
  btauto.

(** ** The round transformations are invertible *)

Lemma mix_column_explicit (a b c d : Z) :
  mix_column [a; b; c; d] =
  [ Z.lxor (Z.lxor (Z.lxor (xtime a) (Z.lxor (xtime b) b)) c) d;
    Z.lxor (Z.lxor (Z.lxor a (xtime b)) (Z.lxor (xtime c) c)) d;
    Z.lxor (Z.lxor (Z.lxor a b) (xtime c)) (Z.lxor (xtime d) d);
    Z.lxor (Z.lxor (Z.lxor (Z.lxor (xtime a) a) b) c) (xtime d) ].
Proof. reflexivity. Qed.

Lemma mix_column_twice (a b c d : Z) :
  is_byte a -> is_byte b -> is_byte c -> is_byte d ->
  mix_column (mix_column [a; b; c; d]) =
  [ Z.lxor (Z.lxor (xtime (xtime a)) a) (xtime (xtime c));
    Z.lxor (Z.lxor (xtime (xtime b)) b) (xtime (xtime d));
    Z.lxor (Z.lxor (xtime (xtime c)) c) (xtime (xtime a));
    Z.lxor (Z.lxor (xtime (xtime d)) d) (xtime (xtime b)) ].
Proof.
  intros Ha Hb Hc Hd.
  rewrite !mix_column_explicit.
  rewrite !xtime_lxor by byte_goal.
  repeat (f_equal; [xor_ring|]). f_equal. xor_ring.
Qed.

Lemma mix_column_four_times (a b c d : Z) :
  is_byte a -> is_byte b -> is_byte c -> is_byte d ->
  mix_column (mix_column (mix_column (mix_column [a; b; c; d]))) = [a; b; c; d].
Proof.
  intros Ha Hb Hc Hd.
  rewrite (mix_column_twice a b c d) by assumption.
  rewrite mix_column_twice by byte_goal.
  rewrite !xtime_lxor by byte_goal.
  repeat (f_equal; [xor_ring|]). f_equal. xor_ring.
Qed.

Lemma length_mix_column (c : list Z) : length (mix_column c) = 4%nat.
Proof. reflexivity. Qed.

Lemma list4 (c : list Z) :
  length c = 4%nat -> exists a b c' d, c = [a; b; c'; d].
Proof.
  intros H. do 4 (destruct c as [|? c]; [discriminate H|]).
  destruct c; [|discriminate H]. repeat eexists.
Qed.

Lemma mix_columns_cols (c0 c1 c2 c3 : list Z) :
  length c0 = 4%nat -> length c1 = 4%nat -> length c2 = 4%nat -> length c3 = 4%nat ->
  mix_columns (c0 ++ c1 ++ c2 ++ c3) =
  mix_column c0 ++ mix_column c1 ++ mix_column c2 ++ mix_column c3.
Proof.
  intros H0 H1 H2 H3.
  destruct (list4 c0 H0) as (? & ? & ? & ? & ->).
  destruct (list4 c1 H1) as (? & ? & ? & ? & ->).
  destruct (list4 c2 H2) as (? & ? & ? & ? & ->).
  destruct (list4 c3 H3) as (? & ? & ? & ? & ->).
  reflexivity.
Qed.

Lemma mix_columns_four_times (state : list Z) :
  bytes 16 state ->
  mix_columns (mix_columns (mix_columns (mix_columns state))) = state.
Proof.
  intros [Hlen Hb].
  destruct (list16 state ltac:(lia)) as (s0 & s1 & s2 & s3 & s4 & s5 & s6 & s7 & s8 &
    s9 & s10 & s11 & s12 & s13 & s14 & s15 & ->).
  apply Forall16 in Hb.
  destruct Hb as ((H0 & H1 & H2 & H3) & (H4 & H5 & H6 & H7) &
                  (H8 & H9 & H10 & H11) & (H12 & H13 & H14 & H15)).
  change [s0; s1; s2; s3; s4; s5; s6; s7; s8; s9; s10; s11; s12; s13; s14; s15]
    with ([s0; s1; s2; s3] ++ [s4; s5; s6; s7] ++ [s8; s9; s10; s11] ++
          [s12; s13; s14; s15]).
  rewrite !mix_columns_cols by reflexivity.
  now rewrite !mix_column_four_times by assumption.
Qed.

Lemma MixColumns_bytes (state : list Z) : bytes 16 state -> bytes 16 (MixColumns state).
Proof.
  intros H. rewrite MixColumns_mix_columns by exact H.
  apply mix_columns_bytes. apply H.
Qed.

Lemma MixColumns_cycle (state : list Z) :
  bytes 16 state ->
  MixColumns (MixColumns (MixColumns (MixColumns state))) = state.
Proof.
  intros H.
  pose proof (MixColumns_bytes _ H) as H1.
  pose proof (MixColumns_bytes _ H1) as H2.
  pose proof (MixColumns_bytes _ H2) as H3.
  rewrite (MixColumns_mix_columns _ H3), (MixColumns_mix_columns _ H2),
    (MixColumns_mix_columns _ H1), (MixColumns_mix_columns _ H).
  apply mix_columns_four_times. exact H.
Qed.

Lemma MixColumns_injective (s t : list Z) :
  bytes 16 s -> bytes 16 t -> MixColumns s = MixColumns t -> s = t.
Proof.
  intros Hs Ht E.
  rewrite <- (MixColumns_cycle s Hs), <- (MixColumns_cycle t Ht).
  now rewrite E.
Qed.



Lemma sbox_injective (x y : Z) :
  is_byte x -> is_byte y -> rd sbox x = rd sbox y -> x = y.
Proof.
  intros Hx Hy E.
  pose proof (byte_cases2 (fun x y => negb (rd sbox x =? rd sbox y) || (x =? y))
                ltac:(vm_compute; reflexivity) x y Hx Hy) as H.
  cbv beta in H. rewrite E, Z.eqb_refl in H. simpl in H. now apply Z.eqb_eq.
Qed.

Lemma sbox_surjective (y : Z) :
  is_byte y -> exists x, is_byte x /\ rd sbox x = y.
Proof.
  intros Hy.
  pose proof (byte_cases (fun y => existsb (fun x => rd sbox x =? y) (seqZ 0 256))
                ltac:(vm_compute; reflexivity) y Hy) as H.
  cbv beta in H. apply existsb_exists in H. destruct H as (x & Hx & E).
  exists x. split; [|now apply Z.eqb_eq].
  apply list_elem_of_In, elem_of_seqZ in Hx. unfold is_byte. lia.
Qed.

Lemma rd_SubBytes (state : list Z) (i : Z) :
  length state = 16%nat -> 0 <= i < 16 -> rd (SubBytes state) i = rd sbox (rd state i).
Proof.
  intros H Hi. rewrite SubBytes_update, rd_update_range by lia.
  destruct (Z.leb_spec 0 i), (Z.ltb_spec i (0 + 16)); simpl; trivial; lia.
Qed.

(** X1: the S-box is a permutation of the 256 byte values (no two bytes
    have the same image and every byte is an image), so [SubBytes] maps
    different states of 16 bytes to different states. *)
Theorem SubBytes_permutation (s t : list Z) :
  bytes 16 s -> bytes 16 t ->
  (SubBytes s = SubBytes t -> s = t) /\
  bytes 16 (SubBytes s) /\
  (forall x y, is_byte x -> is_byte y -> rd sbox x = rd sbox y -> x = y) /\
  (forall y, is_byte y -> exists x, is_byte x /\ rd sbox x = y).
Proof.
  intros Hs Ht. split; [|split; [|split]].
  - destruct Hs as [Hs Hsb], Ht as [Ht Htb]. intros E. apply rd_ext; [lia|].
    intros i Hi. apply sbox_injective; try now apply rd_is_byte.
    rewrite <- !rd_SubBytes by lia. now rewrite E.
  - destruct Hs as [Hs _]. rewrite SubBytes_sub_bytes by lia.
    apply sub_bytes_bytes. lia.
  - exact sbox_injective.
  - exact sbox_surjective.
Qed.

Lemma SubBytes_permutation_witness :
  bytes 16 fips197_B_input /\
  bytes 16 (SubBytes fips197_B_input) /\
  exists x, is_byte x /\ rd sbox x = 0.
Proof.
  assert (H : bytes 16 fips197_B_input) by (apply bytes_dec; vm_compute; reflexivity).
  assert (H0 : is_byte 0) by (unfold is_byte; lia).
  destruct (SubBytes_permutation fips197_B_input fips197_B_input H H)
    as (_ & Hb & _ & Hsur).
  split; [exact H|]. split; [exact Hb | exact (Hsur 0 H0)].
Defined.

Lemma SubBytes_injective (s t : list Z) :
  bytes 16 s -> bytes 16 t -> SubBytes s = SubBytes t -> s = t.
Proof.
  intros [Hs Hsb] [Ht Htb] E. apply rd_ext; [lia|].
  intros i Hi. apply sbox_injective; try now apply rd_is_byte.
  rewrite <- !rd_SubBytes by lia. now rewrite E.
Qed.

Lemma ShiftRows_cycle (state : list Z) :
  length state = 16%nat -> ShiftRows (ShiftRows (ShiftRows (ShiftRows state))) = state.
Proof.
  intros H.
  destruct (list16 state H) as (s0 & s1 & s2 & s3 & s4 & s5 & s6 & s7 & s8 & s9 &
    s10 & s11 & s12 & s13 & s14 & s15 & ->).
  reflexivity.
Qed.

Lemma ShiftRows_injective (s t : list Z) :
  length s = 16%nat -> length t = 16%nat -> ShiftRows s = ShiftRows t -> s = t.
Proof.
  intros Hs Ht E.
  rewrite <- (ShiftRows_cycle s Hs), <- (ShiftRows_cycle t Ht).
  now rewrite E.
Qed.



Lemma rd_AddRoundKey (round : Z) (state RoundKey : list Z) (i : Z) :
  length state = 16%nat -> 0 <= i < 16 ->
  rd (AddRoundKey round state RoundKey) i =
  u8 (Z.lxor (rd state i) (rd RoundKey (round * Nb * 4 + i))).
Proof.
  intros H Hi. rewrite AddRoundKey_update, rd_update_range by lia.
  destruct (Z.leb_spec 0 i), (Z.ltb_spec i (0 + 16)); simpl; try lia.
  do 3 f_equal. lia.
Qed.

Lemma u8_lxor_l (a b : Z) : u8 (Z.lxor (u8 a) b) = u8 (Z.lxor a b).
Proof.
  unfold u8. apply Z.bits_inj'. intros n _.
  rewrite !Z.land_spec, !Z.lxor_spec, !Z.land_spec.
  destruct (Z.testbit a n), (Z.testbit b n), (Z.testbit 255 n); reflexivity.
Qed.

Lemma AddRoundKey_twice (round : Z) (state RoundKey : list Z) :
  bytes 16 state ->
  AddRoundKey round (AddRoundKey round state RoundKey) RoundKey = state.
Proof.
  intros [Hlen Hb]. apply rd_ext.
  - now rewrite !length_AddRoundKey.
  - intros i Hi. rewrite !length_AddRoundKey in Hi.
    rewrite !rd_AddRoundKey by (rewrite ?length_AddRoundKey; lia).
    rewrite u8_lxor_l, lxor_cancel_r. apply u8_id. now apply rd_is_byte.
Qed.

Lemma AddRoundKey_bytes (round : Z) (state RoundKey : list Z) :
  length state = 16%nat -> bytes 16 (AddRoundKey round state RoundKey).
Proof.
  intros H. split.
  - rewrite length_AddRoundKey. lia.
  - rewrite AddRoundKey_update. apply update_range_all_bytes; [lia|].
    intros i x. apply u8_is_byte.
Qed.

Lemma AddRoundKey_injective (round : Z) (s t RoundKey : list Z) :
  bytes 16 s -> bytes 16 t ->
  AddRoundKey round s RoundKey = AddRoundKey round t RoundKey -> s = t.
Proof.
  intros Hs Ht E.
  rewrite <- (AddRoundKey_twice round s RoundKey Hs),
          <- (AddRoundKey_twice round t RoundKey Ht).
  now rewrite E.
Qed.

(** X3: [AddRoundKey] is its own inverse on states of 16 bytes, for every
    round and every array of round keys: the result is a state of 16
    bytes, adding the same round key a second time gives back the state,
    and so different states stay different. *)
Theorem AddRoundKey_involution (round : Z) (state RoundKey : list Z) :
  bytes 16 state ->
  bytes 16 (AddRoundKey round state RoundKey) /\
  AddRoundKey round (AddRoundKey round state RoundKey) RoundKey = state /\
  (forall t, bytes 16 t ->
     AddRoundKey round state RoundKey = AddRoundKey round t RoundKey -> state = t).
Proof.
  intros H. split; [|split].
  - apply AddRoundKey_bytes. destruct H as [H _]. lia.
  - now apply AddRoundKey_twice.
  - intros t Ht. now apply AddRoundKey_injective.
Qed.

Lemma AddRoundKey_involution_witness :
  bytes 16 fips197_B_input /\
  AddRoundKey 3 (AddRoundKey 3 fips197_B_input
                   (KeyExpansion (replicate 176 0) fips197_B_key))
    (KeyExpansion (replicate 176 0) fips197_B_key) = fips197_B_input.
Proof.
  assert (H : bytes 16 fips197_B_input) by (apply bytes_dec; vm_compute; reflexivity).
  split; [exact H|].
  exact (proj1 (proj2 (AddRoundKey_involution 3 fips197_B_input
                         (KeyExpansion (replicate 176 0) fips197_B_key) H))).
Defined.

Lemma SubBytes_bytes (state : list Z) : length state = 16%nat -> bytes 16 (SubBytes state).
Proof.
  intros H. rewrite SubBytes_sub_bytes by exact H. now apply sub_bytes_bytes.
Qed.

Lemma ShiftRows_bytes (state : list Z) : bytes 16 state -> bytes 16 (ShiftRows state).
Proof.
  intros H. rewrite ShiftRows_shift_rows by (destruct H; lia). now apply shift_rows_bytes.
Qed.

(** A loop whose body is injective on the states that satisfy [P] is
    injective on them. *)
Lemma for_range_injective {S : Type} (P : S -> Prop) (lo hi : Z) (body : Z -> S -> S) :
  (forall i s, lo <= i < hi -> P s -> P (body i s)) ->
  (forall i s t, lo <= i < hi -> P s -> P t -> body i s = body i t -> s = t) ->
  forall s t, P s -> P t ->
    for_range lo hi body s = for_range lo hi body t -> s = t.
Proof.
  intros Hpres Hinj s t Hs Ht.
  destruct (Z_le_gt_dec lo hi) as [Hle|Hgt].
  - assert (G : forall n : nat, Z.of_nat n <= hi - lo ->
      P (for_range lo (lo + Z.of_nat n) body s) /\
      P (for_range lo (lo + Z.of_nat n) body t) /\
      (for_range lo (lo + Z.of_nat n) body s = for_range lo (lo + Z.of_nat n) body t ->
       s = t)).
    { induction n as [|n IH]; intros Hn.
      - rewrite Z.add_0_r, !for_range_nil by lia. auto.
      - destruct (IH ltac:(lia)) as (Ps & Pt & Hi).
        replace (lo + Z.of_nat (Datatypes.S n)) with (lo + Z.of_nat n + 1) by lia.
        rewrite !for_range_last by lia.
        split; [apply Hpres; trivial; lia|]. split; [apply Hpres; trivial; lia|].
        intros E. apply Hi. eapply Hinj; eauto. lia. }
    destruct (G (Z.to_nat (hi - lo)) ltac:(lia)) as (_ & _ & H).
    replace (lo + Z.of_nat (Z.to_nat (hi - lo))) with hi in H by lia. exact H.
  - now rewrite !for_range_nil by lia.
Qed.

Lemma round_bytes (key state : list Z) (round : Z) :
  bytes 16 state ->
  bytes 16 (AddRoundKey round (MixColumns (ShiftRows (SubBytes state)))
              (KeyExpansion (replicate 176 0) key)).
Proof.
  intros [H _]. apply AddRoundKey_bytes.
  rewrite length_MixColumns, length_ShiftRows, length_SubBytes. lia.
Qed.

Lemma round_injective (key s t : list Z) (round : Z) :
  bytes 16 s -> bytes 16 t ->
  AddRoundKey round (MixColumns (ShiftRows (SubBytes s)))
    (KeyExpansion (replicate 176 0) key) =
  AddRoundKey round (MixColumns (ShiftRows (SubBytes t)))
    (KeyExpansion (replicate 176 0) key) ->
  s = t.
Proof.
  intros Hs Ht E.
  assert (Hls : length s = 16%nat) by (destruct Hs; lia).
  assert (Hlt : length t = 16%nat) by (destruct Ht; lia).
  pose proof (SubBytes_bytes s Hls) as Hs1. pose proof (SubBytes_bytes t Hlt) as Ht1.
  pose proof (ShiftRows_bytes _ Hs1) as Hs2. pose proof (ShiftRows_bytes _ Ht1) as Ht2.
  pose proof (MixColumns_bytes _ Hs2) as Hs3. pose proof (MixColumns_bytes _ Ht2) as Ht3.
  apply (AddRoundKey_injective round _ _ _ Hs3 Ht3) in E.
  apply (MixColumns_injective _ _ Hs2 Ht2) in E.
  apply ShiftRows_injective in E; [|now rewrite length_SubBytes..].
  now apply SubBytes_injective.
Qed.

Lemma rounds_bytes (key state : list Z) :
  bytes 16 state ->
  bytes 16 (for_range 1 10
              (fun round state =>
                 AddRoundKey round (MixColumns (ShiftRows (SubBytes state)))
                   (KeyExpansion (replicate 176 0) key)) state).
Proof.
  intros Hs. apply (for_range_inv (fun _ s => bytes 16 s)); [lia | exact Hs |].
  intros i s' _ Hs'. now apply round_bytes.
Qed.

(** X5: for a fixed key [aes128e] is injective on blocks of 16 bytes: two
    input blocks that encrypt to the same output block are equal, so the
    ciphertext block determines the plaintext block. *)
Theorem aes128e_injective (output a b key : list Z) :
  bytes 16 a -> bytes 16 b -> length output = 16%nat ->
  aes128e output a key = aes128e output b key -> a = b.
Proof.
  intros Ha Hb Hout E.
  rewrite !aes128e_memcpy in E.
  destruct (final_state_bytes a key) as [Hla _].
  destruct (final_state_bytes b key) as [Hlb _].
  rewrite !memcpy_all in E by lia.
  rewrite !final_state_unfold in E.
  rewrite (memcpy_all _ a), (memcpy_all _ b) in E by (destruct Ha, Hb; trivial).
  assert (Hla' : length a = 16%nat) by (destruct Ha; lia).
  assert (Hlb' : length b = 16%nat) by (destruct Hb; lia).
  pose proof (AddRoundKey_bytes 0 a (KeyExpansion (replicate 176 0) key) Hla') as Ha0.
  pose proof (AddRoundKey_bytes 0 b (KeyExpansion (replicate 176 0) key) Hlb') as Hb0.
  pose proof (rounds_bytes key _ Ha0) as Ha9.
  pose proof (rounds_bytes key _ Hb0) as Hb9.
  assert (Hl9a := proj1 Ha9). assert (Hl9b := proj1 Hb9).
  pose proof (SubBytes_bytes _ (Nat2Z.inj _ 16%nat Hl9a)) as Ha10.
  pose proof (SubBytes_bytes _ (Nat2Z.inj _ 16%nat Hl9b)) as Hb10.
  apply (AddRoundKey_injective 10 _ _ _ (ShiftRows_bytes _ Ha10) (ShiftRows_bytes _ Hb10))
    in E.
  apply ShiftRows_injective in E; [|destruct Ha10, Hb10; lia..].
  apply (SubBytes_injective _ _ Ha9 Hb9) in E.
  apply (for_range_injective (bytes 16)) in E; trivial.
  - now apply (AddRoundKey_injective 0 a b (KeyExpansion (replicate 176 0) key) Ha Hb).
  - intros i s _ Hs. now apply round_bytes.
  - intros i s t _ Hs Ht E'. now apply (round_injective key s t i).
Qed.

Lemma aes128e_injective_witness :
  bytes 16 fips197_B_input /\ length zeros16 = 16%nat /\
  aes128e zeros16 fips197_B_input fips197_B_key =
    aes128e zeros16 fips197_B_input fips197_B_key /\
  fips197_B_input = fips197_B_input.
Proof.
  assert (H1 : bytes 16 fips197_B_input) by (apply bytes_dec; vm_compute; reflexivity).
  assert (H3 : length zeros16 = 16%nat) by reflexivity.
  split; [exact H1|]. split; [exact H3|]. split; [reflexivity|].
  exact (aes128e_injective zeros16 fips197_B_input fips197_B_input fips197_B_key
           H1 H1 H3 eq_refl).
Defined.

(** ** The local arrays *)

(** Two arrays that hold the key in their first 16 bytes and satisfy the
    recurrence of the key schedule have the same words. *)
Lemma key_inv_words (Key R1 R2 : list Z) :
  key_inv Key 44 R1 -> key_inv Key 44 R2 ->
  forall n : nat, forall i, 0 <= i < Z.of_nat n -> i < 44 -> word R1 i = word R2 i.
Proof.
  intros (_ & Hk1 & _ & Hw1) (_ & Hk2 & _ & Hw2).
  induction n as [|n IH]; intros i Hi Hi44; [lia|].
  destruct (Z_lt_le_dec i 4) as [Hlt|Hge].
  - unfold word. rewrite !Hk1, !Hk2 by lia. reflexivity.
  - rewrite Hw1, Hw2 by lia. rewrite (IH (i - 4)), (IH (i - 1)) by lia. reflexivity.
Qed.

Lemma rd_word (R : list Z) (p : Z) :
  0 <= p -> rd R p = rd (word R (p / 4)) (p mod 4).
Proof.
  intros Hp. unfold word.
  assert (Hc : p mod 4 = 0 \/ p mod 4 = 1 \/ p mod 4 = 2 \/ p mod 4 = 3)
    by (pose proof (Z.mod_pos_bound p 4); lia).
  pose proof (Z.div_mod p 4 ltac:(lia)) as Hdm.
  destruct Hc as [E | [E | [E | E]]]; rewrite E; rd_explicit; f_equal; lia.
Qed.

(** X6: [KeyExpansion] writes every one of the 176 bytes of [RoundKey]
    before it reads it: the expanded key does not depend on what the array
    held before the call (in [aes128e] it is not initialised). *)
Theorem KeyExpansion_overwrites (key RoundKey0 RoundKey1 : list Z) :
  bytes 16 key -> length RoundKey0 = 176%nat -> length RoundKey1 = 176%nat ->
  KeyExpansion RoundKey0 key = KeyExpansion RoundKey1 key.
Proof.
  intros Hkey H0 H1.
  pose proof (KeyExpansion_inv key RoundKey0 Hkey H0) as I0.
  pose proof (KeyExpansion_inv key RoundKey1 Hkey H1) as I1.
  pose proof (key_inv_words key _ _ I0 I1 44%nat) as Hw.
  destruct I0 as (L0 & _), I1 as (L1 & _).
  apply rd_ext; [lia|]. intros p Hp. rewrite L0 in Hp.
  rewrite (rd_word _ p), (rd_word (KeyExpansion RoundKey1 key) p) by lia.
  rewrite Hw; trivial; Z.div_mod_to_equations; lia.
Qed.

Lemma KeyExpansion_overwrites_witness :
  bytes 16 fips197_B_key /\
  length (replicate 176 0) = 176%nat /\ length (replicate 176 255) = 176%nat /\
  KeyExpansion (replicate 176 0) fips197_B_key =
  KeyExpansion (replicate 176 255) fips197_B_key.
Proof.
  assert (H : bytes 16 fips197_B_key) by (apply bytes_dec; vm_compute; reflexivity).
  split; [exact H|]. split; [reflexivity|]. split; [reflexivity|].
  exact (KeyExpansion_overwrites fips197_B_key (replicate 176 0) (replicate 176 255)
           H eq_refl eq_refl).
Defined.

Lemma rd_app_l (a b : list Z) (i : Z) :
  0 <= i < Z.of_nat (length a) -> rd (a ++ b) i = rd a i.
Proof. intros H. unfold rd. rewrite lookup_app_l by lia. reflexivity. Qed.

Lemma rd_app_r (a b : list Z) (i : Z) :
  Z.of_nat (length a) <= i -> rd (a ++ b) i = rd b (i - Z.of_nat (length a)).
Proof.
  intros H. unfold rd. rewrite lookup_app_r by lia. do 2 f_equal. lia.
Qed.

(** X7: [aes128e] writes the first 16 bytes of the output buffer and no
    other: in a longer buffer the bytes from index 16 on are as before, and
    the 16 bytes written do not depend on what the buffer held. *)
Theorem aes128e_writes_16_bytes (output input key : list Z) :
  (16 <= length output)%nat ->
  aes128e output input key = encrypt_block input key ++ drop 16 output.
Proof.
  intros Hout. destruct (encrypt_block_bytes input key) as [Hlen _].
  unfold encrypt_block in *. rewrite !aes128e_memcpy in *.
  destruct (final_state_bytes input key) as [Hfl _].
  rewrite (memcpy_all (replicate 16 0)) in * by (trivial; lia).
  apply rd_ext.
  - rewrite length_memcpy, length_app, length_drop. lia.
  - intros i Hi. rewrite length_memcpy in Hi. rewrite rd_memcpy by lia.
    destruct (Z.ltb_spec i 16).
    + now rewrite rd_app_l by lia.
    + rewrite rd_app_r, rd_drop by lia. f_equal. lia.
Qed.

Lemma aes128e_writes_16_bytes_witness :
  (16 <= length (replicate 20 7))%nat /\
  aes128e (replicate 20 7) zeros16 zeros16 = aes128_zero_block ++ [7; 7; 7; 7].
Proof.
  assert (H : (16 <= length (replicate 20 7))%nat) by (vm_compute; lia).
  split; [exact H|].
  rewrite (aes128e_writes_16_bytes (replicate 20 7) zeros16 zeros16 H).
  vm_compute. reflexivity.
Defined.

(** ** More on the OFB driver *)

Lemma keystream_shift (key iv : list Z) (q i : nat) :
  keystream key (chaining key iv q) i = keystream key iv (q + i).
Proof.
  induction i as [|i IH].
  - rewrite Nat.add_0_r. simpl. now rewrite keystream_chaining.
  - rewrite Nat.add_succ_r. simpl. now rewrite IH.
Qed.

(** X8: [OFBaes128e] calls [aes128e] once per block of the input, whole or
    partial: the number of calls is [L / 16] rounded up. *)
Theorem ofb_calls_count (key iv plaintext ct0 : list Z) (L : Z) :
  0 <= L < 2 ^ 32 -> L <= Z.of_nat (length ct0) -> length iv = 16%nat ->
  Z.of_nat (ofb_calls (OFBaes128e ct0 plaintext L iv key)) = (L + 15) / 16.
Proof.
  intros HL Hct Hiv.
  destruct (OFBaes128e_spec key iv plaintext ct0 L HL Hct Hiv) as (_ & _ & _ & H & _).
  rewrite H. apply Z2Nat.id. apply Z.div_pos; lia.
Qed.

Lemma ofb_calls_count_witness :
  0 <= 33 < 2 ^ 32 /\ 33 <= Z.of_nat (length (replicate 33 0)) /\
  length zeros16 = 16%nat /\
  Z.of_nat (ofb_calls (OFBaes128e (replicate 33 0) sample33 33 zeros16 fips197_C1_key)) = 3.
Proof.
  assert (H1 : 0 <= 33 < 2 ^ 32) by lia.
  assert (H2 : 33 <= Z.of_nat (length (replicate 33 0))) by (vm_compute; discriminate).
  assert (H3 : length zeros16 = 16%nat) by reflexivity.
  split; [exact H1|]. split; [exact H2|]. split; [exact H3|].
  exact (ofb_calls_count fips197_C1_key zeros16 sample33 (replicate 33 0) 33 H1 H2 H3).
Defined.

(** X9: the ciphertext of a prefix is the prefix of the ciphertext:
    encrypting only the first [n] bytes of a plaintext gives the first [n]
    bytes of what encrypting all of it gives. *)
Theorem ofb_prefix (key iv plaintext ct0 ct1 : list Z) (L n : Z) :
  0 <= n <= L -> L < 2 ^ 32 -> length iv = 16%nat ->
  Z.of_nat (length ct0) = L -> Z.of_nat (length ct1) = n ->
  ofb_ciphertext (OFBaes128e ct1 (take (Z.to_nat n) plaintext) n iv key) =
  take (Z.to_nat n) (ofb_ciphertext (OFBaes128e ct0 plaintext L iv key)).
Proof.
  intros Hn HL Hiv H0 H1.
  destruct (OFBaes128e_spec key iv plaintext ct0 L ltac:(lia) ltac:(lia) Hiv)
    as (Hl0 & Hr0 & _).
  destruct (OFBaes128e_spec key iv (take (Z.to_nat n) plaintext) ct1 n
              ltac:(lia) ltac:(lia) Hiv) as (Hl1 & Hr1 & _).
  apply rd_ext.
  - rewrite Hl1, length_take, Hl0. lia.
  - intros k Hk. rewrite Hl1 in Hk. rewrite rd_take by lia.
    rewrite Hr1, Hr0 by lia.
    destruct (Z.ltb_spec k n), (Z.ltb_spec k L); try lia.
    unfold ofb_byte. now rewrite rd_take by lia.
Qed.

Lemma ofb_prefix_witness :
  0 <= 20 <= 33 /\ 33 < 2 ^ 32 /\ length zeros16 = 16%nat /\
  Z.of_nat (length (replicate 33 0)) = 33 /\ Z.of_nat (length (replicate 20 0)) = 20 /\
  ofb_ciphertext
    (OFBaes128e (replicate 20 0) (take (Z.to_nat 20) sample33) 20 zeros16 fips197_C1_key) =
  take (Z.to_nat 20)
    (ofb_ciphertext (OFBaes128e (replicate 33 0) sample33 33 zeros16 fips197_C1_key)).
Proof.
  assert (H1 : 0 <= 20 <= 33) by lia.
  assert (H2 : 33 < 2 ^ 32) by lia.
  assert (H3 : length zeros16 = 16%nat) by reflexivity.
  assert (H4 : Z.of_nat (length (replicate 33 0)) = 33) by reflexivity.
  assert (H5 : Z.of_nat (length (replicate 20 0)) = 20) by reflexivity.
  split; [exact H1|]. split; [exact H2|]. split; [exact H3|].
  split; [exact H4|]. split; [exact H5|].
  exact (ofb_prefix fips197_C1_key zeros16 sample33 (replicate 33 0) (replicate 20 0)
           33 20 H1 H2 H3 H4 H5).
Defined.

(** X10: a plaintext can be encrypted in two calls when the first part is
    a whole number of blocks: the second call takes as IV the chaining
    register that the first call leaves, and the two ciphertexts put
    together are the ciphertext of one call on the whole plaintext. *)
Theorem ofb_resume (key iv p1 p2 c c1 c2 : list Z) (L1 L2 : Z) :
  0 <= L1 -> 0 <= L2 -> L1 + L2 < 2 ^ 32 -> L1 mod 16 = 0 ->
  length iv = 16%nat ->
  Z.of_nat (length p1) = L1 -> Z.of_nat (length p2) = L2 ->
  Z.of_nat (length c) = L1 + L2 ->
  Z.of_nat (length c1) = L1 -> Z.of_nat (length c2) = L2 ->
  let r1 := OFBaes128e c1 p1 L1 iv key in
  ofb_ciphertext (OFBaes128e c (p1 ++ p2) (L1 + L2) iv key) =
  ofb_ciphertext r1 ++ ofb_ciphertext (OFBaes128e c2 p2 L2 (ofb_feedback r1) key).
Proof.
  intros H1 H2 HL Hm Hiv Hp1 Hp2 Hc Hc1 Hc2 r1.
  destruct (OFBaes128e_spec key iv (p1 ++ p2) c (L1 + L2) ltac:(lia) ltac:(lia) Hiv)
    as (Hl & Hr & _).
  destruct (OFBaes128e_spec key iv p1 c1 L1 ltac:(lia) ltac:(lia) Hiv)
    as (Hl1 & Hr1 & Hfb & _).
  fold r1 in Hl1, Hr1, Hfb.
  assert (Hfl : length (ofb_feedback r1) = 16%nat)
    by (rewrite Hfb; now apply length_chaining).
  destruct (OFBaes128e_spec key (ofb_feedback r1) p2 c2 L2 ltac:(lia) ltac:(lia) Hfl)
    as (Hl2 & Hr2 & _).
  apply rd_ext.
  - rewrite Hl, length_app, Hl1, Hl2. lia.
  - intros k Hk. rewrite Hl in Hk. rewrite Hr by lia.
    destruct (Z.ltb_spec k (L1 + L2)); [|lia].
    destruct (Z_lt_le_dec k L1) as [Hlt|Hge].
    + rewrite rd_app_l by lia. rewrite Hr1 by lia.
      destruct (Z.ltb_spec k L1); [|lia].
      unfold ofb_byte. now rewrite rd_app_l by lia.
    + rewrite rd_app_r by lia. rewrite Hl1, Hr2 by lia.
      destruct (Z.ltb_spec (k - Z.of_nat (length c1)) L2); [|lia].
      unfold ofb_byte. rewrite rd_app_r by lia. rewrite Hp1, Hc1.
      f_equal. f_equal. unfold keystream_byte. rewrite Hfb, keystream_shift.
      f_equal.
      * f_equal. Z.div_mod_to_equations; lia.
      * Z.div_mod_to_equations; lia.
Qed.

Lemma ofb_resume_witness :
  0 <= 16 /\ 0 <= 17 /\ 16 + 17 < 2 ^ 32 /\ 16 mod 16 = 0 /\
  length zeros16 = 16%nat /\
  ofb_ciphertext
    (OFBaes128e (replicate 33 0) (take 16 sample33 ++ drop 16 sample33) (16 + 17)
       zeros16 fips197_C1_key) =
  ofb_ciphertext (OFBaes128e (replicate 16 0) (take 16 sample33) 16 zeros16 fips197_C1_key) ++
  ofb_ciphertext
    (OFBaes128e (replicate 17 0) (drop 16 sample33) 17
       (ofb_feedback
          (OFBaes128e (replicate 16 0) (take 16 sample33) 16 zeros16 fips197_C1_key))
       fips197_C1_key).
Proof.
  assert (H1 : 0 <= 16) by lia. assert (H2 : 0 <= 17) by lia.
  assert (H3 : 16 + 17 < 2 ^ 32) by lia.
  assert (H4 : 16 mod 16 = 0) by reflexivity.
  assert (H5 : length zeros16 = 16%nat) by reflexivity.
  split; [exact H1|]. split; [exact H2|]. split; [exact H3|]. split; [exact H4|].
  split; [exact H5|].
  exact (ofb_resume fips197_C1_key zeros16 (take 16 sample33) (drop 16 sample33)
           (replicate 33 0) (replicate 16 0) (replicate 17 0) 16 17
           H1 H2 H3 H4 H5 eq_refl eq_refl eq_refl eq_refl eq_refl).
Defined.

(** ** Calls in place *)

(** X11: a call in place ([ciphertext] and [plaintext] the same pointer)
    leaves in the buffer the ciphertext that a call with a separate output
    buffer computes, when the key lies outside of the bytes written. *)
Theorem in_place_same_ciphertext (m : Heap.mem) (buf ct L ivp keyp : Z) :
  0 <= L < 2 ^ 32 ->
  keyp + 16 <= buf \/ buf + L <= keyp ->
  keyp + 16 <= ct \/ ct + L <= keyp ->
  buf + L <= ct \/ ct + L <= buf ->
  Heap.load_bytes (Heap.OFBaes128e m buf buf L ivp keyp) buf L =
  Heap.load_bytes (Heap.OFBaes128e m ct buf L ivp keyp) ct L.
Proof.
  intros HL Hk1 Hk2 Hsep.
  destruct (Heap_OFBaes128e_spec m buf buf L ivp keyp HL) as [_ H1].
  destruct (Heap_OFBaes128e_spec m ct buf L ivp keyp HL) as [_ H2].
  apply rd_ext.
  - now rewrite !length_load_bytes.
  - intros k Hk. rewrite length_load_bytes in Hk.
    rewrite !rd_load_bytes by lia.
    rewrite H1, H2; trivial; try lia; unfold readable_plaintext; lia.
Qed.

Lemma in_place_same_ciphertext_witness :
  0 <= 33 < 2 ^ 32 /\
  Heap.load_bytes (Heap.OFBaes128e sample_memory 200 200 33 300 400) 200 33 =
  Heap.load_bytes (Heap.OFBaes128e sample_memory 100 200 33 300 400) 100 33.
Proof.
  assert (H1 : 0 <= 33 < 2 ^ 32) by lia.
  split; [exact H1|].
  apply (in_place_same_ciphertext sample_memory 200 100 33 300 400 H1); lia.
Defined.

(** X12: two calls in place with the same key and IV, both outside of the
    buffer, give back a buffer of bytes, and leave all of the memory as it
    was. *)
Theorem in_place_round_trip (m : Heap.mem) (buf L ivp keyp : Z) :
  0 <= L < 2 ^ 32 ->
  keyp + 16 <= buf \/ buf + L <= keyp ->
  ivp + 16 <= buf \/ buf + L <= ivp ->
  (forall k, 0 <= k < L -> is_byte (m (buf + k))) ->
  let m1 := Heap.OFBaes128e m buf buf L ivp keyp in
  let m2 := Heap.OFBaes128e m1 buf buf L ivp keyp in
  Heap.load_bytes m2 buf L = Heap.load_bytes m buf L /\
  forall a, m2 a = m a.
Proof.
  intros HL Hkey Hiv Hb m1 m2.
  destruct (Heap_OFBaes128e_spec m buf buf L ivp keyp HL) as [Hf1 Hv1].
  destruct (Heap_OFBaes128e_spec m1 buf buf L ivp keyp HL) as [Hf2 Hv2].
  fold m1 in Hf1, Hv1. fold m2 in Hf2, Hv2.
  assert (Hrp : readable_plaintext buf buf L) by (unfold readable_plaintext; lia).
  assert (Ekey : Heap.load_bytes m1 keyp 16 = Heap.load_bytes m keyp 16)
    by (apply load_bytes_ext; intros k Hk; apply Hf1; lia).
  assert (Eiv : Heap.load_bytes m1 ivp 16 = Heap.load_bytes m ivp 16)
    by (apply load_bytes_ext; intros k Hk; apply Hf1; lia).
  assert (G : forall a, m2 a = m a).
  { intros a. destruct (Z_le_gt_dec buf a) as [Hle|Hgt];
      [destruct (Z_lt_le_dec a (buf + L)) as [Hlt|Hge]|].
    - replace a with (buf + (a - buf)) by lia.
      rewrite Hv2 by (trivial; lia). unfold ofb_byte.
      rewrite rd_load_bytes by lia. rewrite Hv1 by (trivial; lia).
      rewrite Ekey, Eiv. unfold ofb_byte. rewrite rd_load_bytes by lia.
      rewrite (u8_lxor (m _)) by (try apply Hb; try apply keystream_byte_is_byte; lia).
      rewrite lxor_cancel_r. apply u8_id. apply Hb. lia.
    - rewrite Hf2, Hf1 by lia. reflexivity.
    - rewrite Hf2, Hf1 by lia. reflexivity. }
  split; [|exact G]. apply load_bytes_ext. intros k _. apply G.
Qed.

Lemma in_place_round_trip_witness :
  0 <= 33 < 2 ^ 32 /\
  Heap.load_bytes
    (Heap.OFBaes128e (Heap.OFBaes128e sample_memory 200 200 33 300 400) 200 200 33 300 400)
    200 33 = Heap.load_bytes sample_memory 200 33.
Proof.
  assert (H1 : 0 <= 33 < 2 ^ 32) by lia.
  split; [exact H1|].
  apply (in_place_round_trip sample_memory 200 33 300 400 H1); try lia.
  intros k _. unfold sample_memory, is_byte.
  pose proof (Z.mod_pos_bound (200 + k) 251). lia.
Defined.

(** ** The program *)

Lemma write_file_same (fs : file_system) (path : string) (data : list Z) :
  write_file fs path data path = Some data.
Proof. unfold write_file. now rewrite String.eqb_refl. Qed.

Lemma write_file_other (fs : file_system) (path p : string) (data : list Z) :
  p <> path -> write_file fs path data p = fs p.
Proof.
  intros H. unfold write_file. destruct (String.eqb_spec p path); [contradiction|reflexivity].
Qed.

(** The output buffer that [main] passes to [OFBaes128e]. *)
Lemma length_junk (env : environment) (n : Z) :
  length (heap_junk env <$> seqZ 0 n) = Z.to_nat n.
Proof. now rewrite length_fmap, length_seqZ. Qed.

(** X13: with a wrong number of arguments, or a mode that is neither [-e]
    nor [-d], [main] returns 1, prints the usage or the mode error, and
    opens no file: the file system is as before. *)
Theorem main_bad_command_line (env : environment) (argv : list string) (fs : file_system) :
  length argv <> 6%nat \/
  (nth 1 argv EmptyString <> "-e"%string /\ nth 1 argv EmptyString <> "-d"%string) ->
  exit_code (main env argv fs) = 1 /\
  files (main env argv fs) = fs /\
  (length argv <> 6%nat -> messages (main env argv fs) = [Usage]) /\
  (length argv = 6%nat ->
     messages (main env argv fs) = [InvalidMode (nth 1 argv EmptyString)]).
Proof.
  intros H. unfold main. cbv zeta.
  destruct (Z.eqb_spec (Z.of_nat (length argv)) 6) as [E|E]; simpl.
  - destruct H as [H|[H1 H2]]; [lia|].
    apply String.eqb_neq in H1, H2. rewrite H1, H2. simpl.
    repeat split; trivial. intros H. lia.
  - repeat split; trivial. intros H'. lia.
Qed.

Lemma main_bad_command_line_witness :
  exit_code (main sample_env ["aes_ofb"; "-x"; "in"; "out"; "key"; "iv"]%string
               sample_files) = 1 /\
  files (main sample_env ["aes_ofb"; "-x"; "in"; "out"; "key"; "iv"]%string sample_files) =
    sample_files.
Proof.
  destruct (main_bad_command_line sample_env
              ["aes_ofb"; "-x"; "in"; "out"; "key"; "iv"]%string sample_files)
    as (H1 & H2 & _).
  - right. split; intros H; discriminate H.
  - split; [exact H1 | exact H2].
Defined.

Lemma mode_test (mode : string) :
  mode = "-e"%string \/ mode = "-d"%string ->
  negb (String.eqb mode "-e") && negb (String.eqb mode "-d") = false.
Proof. intros [-> | ->]; reflexivity. Qed.

Lemma file_size_of_Some (fs : file_system) (path : string) (data : list Z) :
  fs path = Some data -> file_size_of fs path = Z.of_nat (length data).
Proof. intros H. unfold file_size_of. now rewrite H. Qed.

(** A run of [main] that passes every check. *)
Lemma main_run (env : environment) (prog mode inp out keyp ivp : string)
    (fs : file_system) (input key iv : list Z) :
  mode = "-e"%string \/ mode = "-d"%string ->
  is_some (fs inp) = true ->
  can_create env out = true ->
  write_file fs out [] keyp = Some key -> length key = 16%nat ->
  write_file fs out [] ivp = Some iv -> length iv = 16%nat ->
  write_file fs out [] inp = Some input ->
  malloc_ok env (Z.of_nat (length input)) = true ->
  main env [prog; mode; inp; out; keyp; ivp] fs =
  mk_outcome 0
    (write_file (write_file fs out []) out
       (ofb_ciphertext
          (OFBaes128e (heap_junk env <$> seqZ 0 (Z.of_nat (length input))) input
             (u32 (Z.of_nat (length input))) iv key)))
    [Completed (String.eqb mode "-e")].
Proof.
  intros Hmode Hin Hout Hkey Hklen Hiv Hivlen Hinput Halloc.
  unfold main. cbv beta iota zeta delta [nth].
  change (Z.of_nat (length [prog; mode; inp; out; keyp; ivp]) =? 6) with true.
  simpl negb at 1. cbv iota.
  rewrite (mode_test mode Hmode). cbv iota.
  rewrite Hin, Hout. cbv iota.
  rewrite Hkey, Hiv. simpl is_some. simpl negb. simpl orb. cbv iota.
  rewrite (file_size_of_Some _ _ _ Hkey), (file_size_of_Some _ _ _ Hiv),
    (file_size_of_Some _ _ _ Hinput), Hklen, Hivlen.
  change (Z.of_nat 16 =? 16) with true. simpl negb. cbv iota.
  simpl default. rewrite Hinput. simpl default.
  rewrite (take_ge key), (take_ge iv) by lia. rewrite Hklen, Hivlen.
  change (Z.of_nat 16 =? 16) with true. change (16 <? Z.of_nat 16) with false.
  simpl negb. simpl orb. cbv iota.
  rewrite Halloc, Z.eqb_refl. simpl negb. cbv iota.
  rewrite memcpy_all by (trivial; lia). reflexivity.
Qed.

(** X14: [main] returns 0 or 1, and it returns 0 exactly when there are six
    arguments, the mode is [-e] or [-d], the input file exists, the output
    file can be created, the key file and the IV file hold exactly 16 bytes
    once the output file has been created, and [malloc] succeeds. *)
Theorem main_exit_code (env : environment) (argv : list string) (fs : file_system) :
  let a := fun i : nat => nth i argv EmptyString in
  let fs1 := write_file fs (a 3%nat) [] in
  (exit_code (main env argv fs) = 0 \/ exit_code (main env argv fs) = 1) /\
  (exit_code (main env argv fs) = 0 <->
     length argv = 6%nat /\
     (a 1%nat = "-e"%string \/ a 1%nat = "-d"%string) /\
     is_some (fs (a 2%nat)) = true /\
     can_create env (a 3%nat) = true /\
     file_size_of fs1 (a 4%nat) = 16 /\
     file_size_of fs1 (a 5%nat) = 16 /\
     malloc_ok env (file_size_of fs1 (a 2%nat)) = true).
Proof.
  cbv zeta. unfold main. cbv zeta.
  set (mode := nth 1 argv EmptyString). set (inp := nth 2 argv EmptyString).
  set (out := nth 3 argv EmptyString). set (keyp := nth 4 argv EmptyString).
  set (ivp := nth 5 argv EmptyString).
  destruct (Z.eqb_spec (Z.of_nat (length argv)) 6) as [Hargc|Hargc]; simpl negb; cbv iota;
    [|simpl; split; [now right|]; split; [discriminate | intros (H & _); lia]].
  destruct (String.eqb_spec mode "-e") as [He|He], (String.eqb_spec mode "-d") as [Hd|Hd];
    simpl negb; simpl andb; cbv iota;
    try (assert (Hmode : mode = "-e"%string \/ mode = "-d"%string) by auto);
    [ | | |simpl; split; [now right|]; split; [discriminate | intros (_ & [H|H] & _); contradiction]].
  all: destruct (is_some (fs inp)) eqn:Hin; simpl negb; simpl orb; cbv iota;
    [|simpl; split; [now right|]; split; [discriminate | intros (_ & _ & H & _); discriminate]].
  all: destruct (can_create env out) eqn:Hout; simpl negb; simpl orb; cbv iota;
    [|simpl; split; [now right|]; split; [discriminate | intros (_ & _ & _ & H & _); discriminate]].
  all: unfold file_size_of;
    destruct (write_file fs out [] keyp) as [key|] eqn:Hkey; simpl is_some; simpl negb;
    simpl orb; cbv iota; simpl default;
    [|simpl; split; [now right|]; split; [discriminate | intros (_ & _ & _ & _ & H & _); discriminate]].
  all: destruct (write_file fs out [] ivp) as [iv|] eqn:Hiv; simpl is_some; simpl negb;
    cbv iota; simpl default;
    [|simpl; split; [now right|]; split; [discriminate | intros (_ & _ & _ & _ & _ & H & _); discriminate]].
  all: destruct (Z.eqb_spec (Z.of_nat (length key)) 16) as [Hk|Hk]; simpl negb; cbv iota;
    [|simpl; split; [now right|]; split; [discriminate | intros (_ & _ & _ & _ & H & _); lia]].
  all: destruct (Z.eqb_spec (Z.of_nat (length iv)) 16) as [Hi|Hi]; simpl negb; cbv iota;
    [|simpl; split; [now right|]; split; [discriminate | intros (_ & _ & _ & _ & _ & H & _); lia]].
  all: rewrite (take_ge key), (take_ge iv) by lia; rewrite Hk, Hi;
    change (16 =? 16) with true; change (16 <? 16) with false; simpl negb; simpl orb;
    cbv iota.
  all: destruct (malloc_ok env _) eqn:Halloc; simpl negb; cbv iota;
    [|simpl; split; [now right|]; split; [discriminate | intros (_ & _ & _ & _ & _ & _ & H); discriminate]].
  all: rewrite Z.eqb_refl; simpl negb; cbv iota; simpl;
    split; [now left|]; split; [intros _|reflexivity]; repeat split; trivial; lia.
Qed.

(** The ciphertext buffer after [OFBaes128e], as two sequences. *)
Lemma ofb_ciphertext_split (key iv plaintext ct0 : list Z) (L : Z) :
  0 <= L < 2 ^ 32 -> L <= Z.of_nat (length ct0) -> L <= Z.of_nat (length plaintext) ->
  length iv = 16%nat -> Forall is_byte plaintext ->
  let c := ofb_ciphertext (OFBaes128e ct0 plaintext L iv key) in
  length c = length ct0 /\
  take (Z.to_nat L) c =
    xor_bytes (take (Z.to_nat L) plaintext) (keystream_prefix key iv L) /\
  drop (Z.to_nat L) c = drop (Z.to_nat L) ct0.
Proof.
  intros HL Hct Hpt Hiv Hb c.
  destruct (OFBaes128e_spec key iv plaintext ct0 L HL Hct Hiv) as (Hlen & Hrd & _).
  fold c in Hlen, Hrd. split; [exact Hlen|]. split.
  - apply rd_ext.
    + rewrite length_xor_bytes, !length_take, length_keystream_prefix, Hlen. lia.
    + intros k Hk. rewrite length_take, Hlen in Hk.
      rewrite rd_take by lia.
      rewrite rd_xor_bytes by (rewrite ?length_take, ?length_keystream_prefix; lia).
      rewrite rd_take, rd_keystream_prefix by lia. unfold c.
      now rewrite OFBaes128e_rd by (trivial; lia).
  - apply rd_ext.
    + now rewrite !length_drop, Hlen.
    + intros k Hk. rewrite !rd_drop by lia. rewrite Hrd by lia.
      destruct (Z.ltb_spec (Z.of_nat (Z.to_nat L) + k) L); trivial; lia.
Qed.

Lemma xor_keystream_twice (key iv p : list Z) (n : Z) :
  Z.of_nat (length p) = n -> Forall is_byte p ->
  xor_bytes (xor_bytes p (keystream_prefix key iv n)) (keystream_prefix key iv n) = p.
Proof.
  intros Hn Hb. apply rd_ext.
  - rewrite !length_xor_bytes, length_keystream_prefix. lia.
  - intros k Hk. rewrite !length_xor_bytes, length_keystream_prefix in Hk.
    rewrite !rd_xor_bytes
      by (rewrite ?length_xor_bytes, ?length_keystream_prefix; lia).
    apply lxor_cancel_r.
Qed.

Lemma xor_keystream_bytes (key iv p : list Z) (n : Z) :
  Z.of_nat (length p) = n -> Forall is_byte p ->
  bytes n (xor_bytes p (keystream_prefix key iv n)).
Proof.
  intros Hn Hb. split.
  - rewrite length_xor_bytes, length_keystream_prefix. lia.
  - apply Forall_rd. intros k Hk. rewrite length_xor_bytes, length_keystream_prefix in Hk.
    rewrite rd_xor_bytes by (rewrite ?length_keystream_prefix; lia).
    rewrite rd_keystream_prefix by lia.
    apply lxor_is_byte; [now apply rd_is_byte | apply keystream_byte_is_byte].
Qed.

(** What a run of [main] that passes every check writes, for an input
    shorter than 2^32 bytes. *)
Lemma main_run_small (env : environment) (prog mode inp out keyp ivp : string)
    (fs : file_system) (input key iv : list Z) :
  mode = "-e"%string \/ mode = "-d"%string ->
  is_some (fs inp) = true ->
  can_create env out = true ->
  write_file fs out [] keyp = Some key -> length key = 16%nat ->
  write_file fs out [] ivp = Some iv -> length iv = 16%nat ->
  write_file fs out [] inp = Some input ->
  malloc_ok env (Z.of_nat (length input)) = true ->
  Z.of_nat (length input) < 2 ^ 32 -> Forall is_byte input ->
  main env [prog; mode; inp; out; keyp; ivp] fs =
  mk_outcome 0
    (write_file (write_file fs out []) out
       (xor_bytes input (keystream_prefix key iv (Z.of_nat (length input)))))
    [Completed (String.eqb mode "-e")].
Proof.
  intros Hmode Hin Hout Hkey Hklen Hiv Hivlen Hinput Halloc Hsmall Hb.
  rewrite (main_run env prog mode inp out keyp ivp fs input key iv) by assumption.
  do 3 f_equal.
  set (n := Z.of_nat (length input)) in *.
  assert (Hu : u32 n = n) by (unfold u32; apply Z.mod_small; lia).
  rewrite Hu.
  destruct (ofb_ciphertext_split key iv input (heap_junk env <$> seqZ 0 n) n)
    as (Hlen & Htake & _); trivial; try lia.
  { rewrite length_junk. lia. }
  rewrite length_junk in Hlen.
  rewrite (take_ge input) in Htake by lia.
  rewrite take_ge in Htake by lia. exact Htake.
Qed.

Lemma is_some_Some {A : Type} (o : option A) (x : A) : o = Some x -> is_some o = true.
Proof. now intros ->. Qed.

(** X16: on valid arguments, with an output path different from the other
    three, [main] returns 0 and changes the output file only.  The output
    file has the size [n] of the input file; its first [n mod 2^32] bytes
    are the input XOR the keystream of the key and IV files, whatever the
    mode; the remaining bytes (there are none when [n < 2^32], the length
    being passed to [OFBaes128e] as a [uint32_t]) are those of the block
    that [malloc] returned. *)
Theorem main_output (env : environment) (prog mode inp out keyp ivp : string)
    (fs : file_system) (input key iv : list Z) :
  mode = "-e"%string \/ mode = "-d"%string ->
  out <> inp -> out <> keyp -> out <> ivp ->
  fs inp = Some input -> Forall is_byte input ->
  fs keyp = Some key -> length key = 16%nat ->
  fs ivp = Some iv -> length iv = 16%nat ->
  can_create env out = true ->
  malloc_ok env (Z.of_nat (length input)) = true ->
  let r := main env [prog; mode; inp; out; keyp; ivp] fs in
  let n := Z.of_nat (length input) in
  let L := Z.to_nat (u32 n) in
  exit_code r = 0 /\
  messages r = [Completed (String.eqb mode "-e")] /\
  (forall p, p <> out -> files r p = fs p) /\
  exists c, files r out = Some c /\
    length c = length input /\
    take L c = xor_bytes (take L input) (keystream_prefix key iv (u32 n)) /\
    drop L c = heap_junk env <$> seqZ (u32 n) (n - u32 n).
Proof.
  intros Hmode Hoi Hok Hov Hin Hb Hkey Hklen Hiv Hivlen Hout Halloc r n L.
  unfold r.
  rewrite (main_run env prog mode inp out keyp ivp fs input key iv); trivial;
    try (rewrite write_file_other by auto; trivial).
  2: { now rewrite Hin. }
  simpl exit_code. simpl messages. simpl files.
  split; [reflexivity|]. split; [reflexivity|]. split.
  { intros p Hp. now rewrite !write_file_other by exact Hp. }
  eexists. split; [apply write_file_same|].
  assert (Hu : 0 <= u32 n <= n /\ u32 n < 2 ^ 32).
  { unfold u32. pose proof (Z.mod_pos_bound n (2 ^ 32) ltac:(lia)).
    pose proof (Z.mod_le n (2 ^ 32) ltac:(lia) ltac:(lia)). lia. }
  destruct (ofb_ciphertext_split key iv input (heap_junk env <$> seqZ 0 n) (u32 n))
    as (Hlen & Htake & Hdrop); trivial; try lia.
  { rewrite length_junk. lia. }
  fold n. rewrite length_junk in Hlen.
  split; [lia|]. split; [exact Htake|].
  fold L in Hdrop. rewrite Hdrop. unfold L.
  apply rd_ext.
  - rewrite length_drop, !length_junk, length_fmap, length_seqZ. lia.
  - intros k Hk. rewrite length_drop, length_junk in Hk.
    rewrite rd_drop by lia. unfold rd.
    rewrite !list_lookup_fmap, !lookup_seqZ_lt by lia. simpl. f_equal. lia.
Qed.

Lemma main_output_witness :
  exit_code (main sample_env ["aes_ofb"; "-e"; "in"; "out"; "key"; "iv"]%string
               sample_files) = 0 /\
  exists c,
    files (main sample_env ["aes_ofb"; "-e"; "in"; "out"; "key"; "iv"]%string sample_files)
      "out"%string = Some c /\
    length c = length sample33.
Proof.
  destruct (main_output sample_env "aes_ofb" "-e" "in" "out" "key" "iv" sample_files
              sample33 fips197_C1_key zeros16) as (H1 & _ & _ & c & Hc & Hlen & _);
    try reflexivity; try (intros H; discriminate H).
  - now left.
  - apply sample33_bytes.
  - split; [exact H1|]. exists c. split; [exact Hc | exact Hlen].
Defined.

(** X17: encrypting a file of bytes shorter than 2^32 with [-e] and then
    the result with [-d], with the same key and IV files, gives a file
    equal to the original. *)
Theorem main_round_trip (env env' : environment)
    (prog prog' inp enc dec keyp ivp : string)
    (fs : file_system) (input key iv : list Z) :
  enc <> inp -> enc <> keyp -> enc <> ivp ->
  dec <> enc -> dec <> keyp -> dec <> ivp ->
  fs inp = Some input -> bytes (Z.of_nat (length input)) input ->
  Z.of_nat (length input) < 2 ^ 32 ->
  fs keyp = Some key -> length key = 16%nat ->
  fs ivp = Some iv -> length iv = 16%nat ->
  can_create env enc = true -> can_create env' dec = true ->
  malloc_ok env (Z.of_nat (length input)) = true ->
  malloc_ok env' (Z.of_nat (length input)) = true ->
  let r1 := main env [prog; "-e"; inp; enc; keyp; ivp]%string fs in
  let r2 := main env' [prog'; "-d"; enc; dec; keyp; ivp]%string (files r1) in
  exit_code r1 = 0 /\ exit_code r2 = 0 /\ files r2 dec = Some input.
Proof.
  intros H1 H2 H3 H4 H5 H6 Hin [_ Hb] Hsmall Hkey Hklen Hiv Hivlen Hc Hc' Hm Hm' r1 r2.
  set (n := Z.of_nat (length input)) in *.
  assert (E1 : r1 = mk_outcome 0
            (write_file (write_file fs enc []) enc
               (xor_bytes input (keystream_prefix key iv n)))
            [Completed true]).
  { unfold r1. apply (main_run_small env prog "-e" inp enc keyp ivp fs input key iv);
      auto; try (rewrite write_file_other by auto; trivial). now rewrite Hin. }
  destruct (xor_keystream_bytes key iv input n eq_refl Hb) as [Hclen Hcb].
  assert (E2 : r2 = mk_outcome 0
            (write_file (write_file (files r1) dec []) dec
               (xor_bytes (xor_bytes input (keystream_prefix key iv n))
                  (keystream_prefix key iv n)))
            [Completed false]).
  { unfold r2. rewrite E1. simpl files.
    rewrite (main_run_small env' prog' "-d" enc dec keyp ivp _
               (xor_bytes input (keystream_prefix key iv n)) key iv); auto.
    - now rewrite Hclen.
    - now rewrite write_file_same.
    - rewrite !write_file_other by auto. exact Hkey.
    - rewrite !write_file_other by auto. exact Hiv.
    - rewrite write_file_other by auto. apply write_file_same.
    - now rewrite Hclen.
    - now rewrite Hclen. }
  rewrite E2, E1. simpl. split; [reflexivity|]. split; [reflexivity|].
  rewrite write_file_same. f_equal. now apply xor_keystream_twice.
Qed.

Lemma main_round_trip_witness :
  files
    (main sample_env ["aes_ofb"; "-d"; "enc"; "dec"; "key"; "iv"]%string
       (files (main sample_env ["aes_ofb"; "-e"; "in"; "enc"; "key"; "iv"]%string
                 sample_files)))
    "dec"%string = Some sample33.
Proof.
  destruct (main_round_trip sample_env sample_env "aes_ofb" "aes_ofb"
              "in" "enc" "dec" "key" "iv" sample_files sample33 fips197_C1_key zeros16)
    as (_ & _ & H);
    [first [apply sample33_bytes | reflexivity | intros E; discriminate E] .. | exact H].
Defined.

(** X18: when the input path is also the output path, [main] empties the
    file before it reads it: it returns 0, reports completion, and leaves
    the file empty. *)
Theorem main_same_path_erases (env : environment) (prog mode path keyp ivp : string)
    (fs : file_system) (input key iv : list Z) :
  mode = "-e"%string \/ mode = "-d"%string ->
  path <> keyp -> path <> ivp ->
  fs path = Some input ->
  fs keyp = Some key -> length key = 16%nat ->
  fs ivp = Some iv -> length iv = 16%nat ->
  can_create env path = true -> malloc_ok env 0 = true ->
  let r := main env [prog; mode; path; path; keyp; ivp] fs in
  exit_code r = 0 /\
  messages r = [Completed (String.eqb mode "-e")] /\
  files r path = Some [].
Proof.
  intros Hmode Hk Hv Hin Hkey Hklen Hiv Hivlen Hc Hm r. unfold r.
  rewrite (main_run_small env prog mode path path keyp ivp fs [] key iv); trivial;
    try (rewrite write_file_other by auto; trivial).
  - simpl. now rewrite write_file_same.
  - now rewrite Hin.
  - apply write_file_same.
  - simpl. lia.
Qed.

Lemma main_same_path_erases_witness :
  exit_code (main sample_env ["aes_ofb"; "-e"; "in"; "in"; "key"; "iv"]%string
               sample_files) = 0 /\
  files (main sample_env ["aes_ofb"; "-e"; "in"; "in"; "key"; "iv"]%string sample_files)
    "in"%string = Some [].
Proof.
  destruct (main_same_path_erases sample_env "aes_ofb" "-e" "in" "key" "iv" sample_files
              sample33 fips197_C1_key zeros16) as (H1 & _ & H2);
    try reflexivity; try (intros H; discriminate H).
  - now left.
  - split; [exact H1 | exact H2].
Defined.

(** X15: when the key file or the IV file does not hold exactly 16 bytes,
    [main] returns 1 and reports the size; by then it has created the
    output file, which is left empty, whatever it held; no other file
    changes. *)
Theorem main_rejects_bad_lengths (env : environment) (prog mode inp out keyp ivp : string)
    (fs : file_system) (input key iv : list Z) :
  mode = "-e"%string \/ mode = "-d"%string ->
  out <> keyp -> out <> ivp ->
  fs inp = Some input -> fs keyp = Some key -> fs ivp = Some iv ->
  can_create env out = true ->
  length key <> 16%nat \/ length iv <> 16%nat ->
  let r := main env [prog; mode; inp; out; keyp; ivp] fs in
  exit_code r = 1 /\
  files r out = Some [] /\
  (forall p, p <> out -> files r p = fs p) /\
  messages r = if negb (Z.of_nat (length key) =? 16)
               then [KeySizeError (Z.of_nat (length key))]
               else [IvSizeError (Z.of_nat (length iv))].
Proof.
  intros Hmode Hk Hv Hin Hkey Hiv Hc Hbad r. unfold r, main.
  cbv beta iota zeta delta [nth].
  change (Z.of_nat (length [prog; mode; inp; out; keyp; ivp]) =? 6) with true.
  simpl negb at 1. cbv iota.
  rewrite (mode_test mode Hmode). cbv iota.
  rewrite Hin, Hc. cbv iota. unfold file_size_of.
  rewrite !(write_file_other fs out keyp), !(write_file_other fs out ivp) by auto.
  rewrite Hkey, Hiv. simpl is_some. simpl negb. simpl orb. cbv iota. simpl default.
  destruct (Z.eqb_spec (Z.of_nat (length key)) 16) as [Ek|Ek]; simpl negb; cbv iota.
  - destruct (Z.eqb_spec (Z.of_nat (length iv)) 16) as [Ei|Ei]; simpl negb; cbv iota;
      [lia|].
    simpl. split; [reflexivity|]. split; [apply write_file_same|]. split; [|reflexivity].
    intros p Hp. now apply write_file_other.
  - simpl. split; [reflexivity|]. split; [apply write_file_same|]. split; [|reflexivity].
    intros p Hp. now apply write_file_other.
Qed.

Lemma main_rejects_bad_lengths_witness :
  exit_code (main sample_env ["aes_ofb"; "-e"; "in"; "out"; "shortkey"; "iv"]%string
               sample_files) = 1 /\
  files (main sample_env ["aes_ofb"; "-e"; "in"; "out"; "shortkey"; "iv"]%string
           sample_files) "out"%string = Some [] /\
  messages (main sample_env ["aes_ofb"; "-e"; "in"; "out"; "shortkey"; "iv"]%string
              sample_files) = [KeySizeError 10].
Proof.
  destruct (main_rejects_bad_lengths sample_env "aes_ofb" "-e" "in" "out" "shortkey" "iv"
              sample_files sample33 (replicate 10 0) zeros16) as (H1 & H2 & _ & H3);
    try reflexivity; try (intros H; discriminate H).
  - now left.
  - left. intros H. discriminate H.
  - split; [exact H1|]. split; [exact H2 | exact H3].
Defined.

(** Case analysis on the tests of [main], outermost first. *)
Ltac split_tests :=
  repeat match goal with
         | |- context [if ?c then _ else _] =>
             match c with
             | context [if _ then _ else _] => fail 1
             | _ => destruct c eqn:?
             end
         end.

(** X19: whatever the arguments and the files, [main] changes no file
    other than the one named by its third argument. *)
Theorem main_writes_only_output (env : environment) (argv : list string)
    (fs : file_system) (p : string) :
  p <> nth 3 argv EmptyString ->
  files (main env argv fs) p = fs p.
Proof.
  intros Hp. unfold main. cbv zeta.
  set (mode := nth 1 argv EmptyString). set (inp := nth 2 argv EmptyString).
  set (out := nth 3 argv EmptyString) in *. set (keyp := nth 4 argv EmptyString).
  set (ivp := nth 5 argv EmptyString).
  split_tests; simpl files; rewrite ?write_file_other by exact Hp; reflexivity.
Qed.

Lemma main_writes_only_output_witness :
  files (main sample_env ["aes_ofb"; "-e"; "in"; "out"; "key"; "iv"]%string sample_files)
    "in"%string = Some sample33.
Proof.
  rewrite (main_writes_only_output sample_env
             ["aes_ofb"; "-e"; "in"; "out"; "key"; "iv"]%string sample_files "in"%string).
  - reflexivity.
  - intros H. discriminate H.
Defined.

(** X20: a run of [main] that does not return 0 returns 1, and its only
    effect on the files is that the output file has been created empty when
    the arguments passed the first two tests and the file could be created;
    otherwise the files are as before. *)
Theorem main_failure_effect (env : environment) (argv : list string) (fs : file_system) :
  exit_code (main env argv fs) <> 0 ->
  let mode := nth 1 argv EmptyString in
  let out := nth 3 argv EmptyString in
  exit_code (main env argv fs) = 1 /\
  files (main env argv fs) =
    if (Z.of_nat (length argv) =? 6) &&
       (String.eqb mode "-e" || String.eqb mode "-d") &&
       can_create env out
    then write_file fs out [] else fs.
Proof.
  unfold main. cbv zeta.
  set (mode := nth 1 argv EmptyString). set (inp := nth 2 argv EmptyString).
  set (out := nth 3 argv EmptyString) in *. set (keyp := nth 4 argv EmptyString).
  set (ivp := nth 5 argv EmptyString).
  destruct (Z.of_nat (length argv) =? 6); simpl negb; simpl andb; cbv iota;
    [|intros _; split; reflexivity].
  destruct (String.eqb mode "-e"), (String.eqb mode "-d"); simpl negb; simpl andb;
    simpl orb; cbv iota; try (intros _; split; reflexivity).
  all: destruct (can_create env out); cbv iota.
  all: split_tests; simpl exit_code; simpl files; intros H; try (split; reflexivity);
       exfalso; apply H; reflexivity.
Qed.

Lemma main_failure_effect_witness :
  exit_code (main sample_env ["aes_ofb"; "-d"; "in"; "out"; "shortkey"; "iv"]%string
               sample_files) = 1 /\
  files (main sample_env ["aes_ofb"; "-d"; "in"; "out"; "shortkey"; "iv"]%string
           sample_files) = write_file sample_files "out"%string [].
Proof.
  apply (main_failure_effect sample_env
           ["aes_ofb"; "-d"; "in"; "out"; "shortkey"; "iv"]%string sample_files).
  intros H. vm_compute in H. discriminate H.
Defined.

(** X21: [main] does the same with [-d] as with [-e]: on the same files the
    two modes return the same code and leave the same files, and differ in
    the completion message only. *)
Theorem main_mode_irrelevant (env : environment) (prog prog' inp out keyp ivp : string)
    (fs : file_system) :
  let re := main env [prog; "-e"; inp; out; keyp; ivp]%string fs in
  let rd := main env [prog'; "-d"; inp; out; keyp; ivp]%string fs in
  exit_code re = exit_code rd /\
  files re = files rd /\
  (exit_code re = 0 -> messages re = [Completed true] /\ messages rd = [Completed false]) /\
  (exit_code re <> 0 -> messages re = messages rd).
Proof.
  cbv zeta. unfold main. cbv beta iota zeta delta [nth].
  change (Z.of_nat (length [prog; "-e"; inp; out; keyp; ivp]%string) =? 6) with true.
  change (Z.of_nat (length [prog'; "-d"; inp; out; keyp; ivp]%string) =? 6) with true.
  change (String.eqb "-e" "-e") with true. change (String.eqb "-d" "-e") with false.
  change (String.eqb "-d" "-d") with true.
  simpl negb. simpl andb. cbv iota.
  split_tests; simpl exit_code; simpl files; simpl messages;
    (split; [reflexivity|]; split; [reflexivity|]; split;
     [first [discriminate | intros _; split; reflexivity]
     |first [reflexivity | intros H; exfalso; apply H; reflexivity]]).
Qed.
